(** * brozzler/robots.py: robots.txt support

    A shallow embedding of [brozzler/robots.py] and the properties of its
    four parts: the substring user-agent lookup patched into reppy
    ([_reppy_rules_getitem]), the session subclass that turns warcprox's
    420 response into [brozzler.ReachedLimit] ([SessionRaiseOn420.get]),
    the process-wide table of per-site robots caches ([_robots_cache]) and
    the retrying permission check ([is_permitted_by_robots]).

    Python values are modelled as follows.
    - a [str] is a [string] holding the bytes of its UTF-8 form; [in] on
      two strs is the search of one byte sequence in the other, since a
      UTF-8 text occurs in another only at character boundaries. Python's
      own [str.lower], which follows Unicode, is a parameter of the
      user-agent lookup, known to lower-case ASCII text letter by letter;
      HTTP header names are ASCII, and for them [str.lower] is written
      out.
    - a [dict] whose iteration order is observable ([Rules.agents]) is an
      association list in iteration order; the module-level dict
      [_robots_caches] is a [gmap] keyed by site id.
    - exceptions are values of [pyobj] with their [args] tuple written out,
      since the handler of [is_permitted_by_robots] indexes [e.args].
    - code that may raise returns a [result]; module state and the state of
      the collaborators (reppy, requests, the network) are threaded
      explicitly. *)

From stdpp Require Import gmap strings list.
From Stdlib Require Import Ascii String.

Local Open Scope string_scope.
#[local] Set Warnings "-register-all".

(** ** Python strings *)

Module PyStr.

(** [c.lower()] for one ASCII character; other bytes are left alone. *)
Definition lower_ascii (c : ascii) : ascii :=
  let n := nat_of_ascii c in
  if (65 <=? n)%nat && (n <=? 90)%nat then ascii_of_nat (n + 32) else c.

(** [s.lower()] for ASCII text. *)
Fixpoint lower (s : string) : string :=
  match s with
  | EmptyString => EmptyString
  | String c s' => String (lower_ascii c) (lower s')
  end.

(** [t.startswith(s)] *)
Fixpoint startswith (s t : string) : bool :=
  match s, t with
  | EmptyString, _ => true
  | String a s', String b t' => if Ascii.eqb a b then startswith s' t' else false
  | String _ _, EmptyString => false
  end.

(** [s in t] on strings: [s] occurs somewhere in [t]. *)
Fixpoint contains (s t : string) : bool :=
  startswith s t ||
  match t with
  | EmptyString => false
  | String _ t' => contains s t'
  end.

(** [s.isascii()]: every character is below 128. *)
Fixpoint is_ascii (s : string) : bool :=
  match s with
  | EmptyString => true
  | String c s' => (nat_of_ascii c <? 128)%nat && is_ascii s'
  end.

(** [c.upper()] for one ASCII character, and [s.upper()] for ASCII text. *)
Definition upper_ascii (c : ascii) : ascii :=
  let n := nat_of_ascii c in
  if (97 <=? n)%nat && (n <=? 122)%nat then ascii_of_nat (n - 32) else c.

Fixpoint upper (s : string) : string :=
  match s with
  | EmptyString => EmptyString
  | String c s' => String (upper_ascii c) (upper s')
  end.

End PyStr.

(** [s] occurs in [t]: [t] is some text, then [s], then some text. *)
Definition occurs_in (s t : string) : Prop :=
  exists before after, t = before ++ s ++ after.

(** An ASCII capital letter, and a text that has one. *)
Definition is_upper (c : ascii) : bool :=
  let n := nat_of_ascii c in (65 <=? n)%nat && (n <=? 90)%nat.

Fixpoint has_upper (s : string) : bool :=
  match s with
  | EmptyString => false
  | String c s' => is_upper c || has_upper s'
  end.

(** ** [_reppy_rules_getitem]: substring user-agent matching *)

Section Rules.

(** What reppy stores per user-agent token (an [Agent] object with the
    allow/disallow lines); its content plays no role here. *)
Context {Group : Type}.

(** Python's [str.lower]. It follows Unicode (a capital E with an accent is
    lower-cased too), so it is not written out here; what the properties
    need of it is stated where they need it. *)
Variable str_lower : string -> string.

(** [self.agents]: token -> group, in the dict's iteration order. *)
Definition agents_dict := list (string * Group).

(** [self.agents[s]] / [self.agents.get(s)] *)
Fixpoint agents_get (agents : agents_dict) (s : string) : option Group :=
  match agents with
  | [] => None
  | (k, g) :: rest => if String.eqb k s then Some g else agents_get rest s
  end.

(** The [for s in self.agents: if s in lc_agent: ...] scan, giving the
    first key of the iteration that occurs in [lc_agent]. *)
Fixpoint first_key_in (keys : list string) (lc_agent : string) : option string :=
  match keys with
  | [] => None
  | s :: rest => if PyStr.contains s lc_agent then Some s else first_key_in rest lc_agent
  end.

Definition _reppy_rules_getitem (agents : agents_dict) (agent : string) : option Group :=
  let lc_agent := str_lower agent in
  match first_key_in (map fst agents) lc_agent with
  | Some s => agents_get agents s
  | None => agents_get agents "*"
  end.

(** An entry whose key has no capital letter. *)
Definition lower_keyed (kg : string * Group) : bool := negb (has_upper (fst kg)).

End Rules.

(** ** Python objects, exceptions and results *)

(** What [json.loads] returns. *)
Inductive json :=
| JNull
| JBool (b : bool)
| JNum (n : Z)
| JStr (s : string)
| JArr (items : list json)
| JObj (members : list (string * json)).

(** The exception classes that the code tests for, raises, or can set off
    itself; every other subclass of [Exception] is [OtherException]. The
    classes the handler tests with [isinstance] (reppy's [ServerError],
    requests' [ProxyError] and [brozzler.ReachedLimit]) are not subclasses of
    one another and have no subclasses in their libraries, so each test is a
    test on the class of the object. *)
Inductive exc_class :=
| ServerError          (* reppy.exceptions.ServerError *)
| RequestsProxyError   (* requests.exceptions.ProxyError *)
| BrozzlerProxyError   (* brozzler.ProxyError *)
| IndexError
| KeyError
| ValueError           (* json.loads on malformed text *)
| OtherException (name : string).

(** Objects that can sit in an exception's [args] tuple, and exceptions
    (instances of [Exception]). [brozzler.ReachedLimit] has the two
    attributes its constructor is given in [SessionRaiseOn420.get]. *)
Inductive pyobj :=
| PyText (s : string)
| PyExc (e : exn)
with exn :=
| ReachedLimit (args : list pyobj) (warcprox_meta : json) (http_payload : string)
| Exc (cls : exc_class) (args : list pyobj).

(** The outcome of a call: a returned value or a raised exception. *)
Inductive result (A : Type) :=
| Return (a : A)
| Raise (e : exn).
Arguments Return {A} a.
Arguments Raise {A} e.

(** [e.args] *)
Definition exn_args (e : exn) : list pyobj :=
  match e with
  | ReachedLimit args _ _ => args
  | Exc _ args => args
  end.

(** [e.args[0]]; indexing an empty tuple raises [IndexError]. *)
Definition args0 (e : exn) : result pyobj :=
  match exn_args e with
  | a :: _ => Return a
  | [] => Raise (Exc IndexError [PyText "tuple index out of range"])
  end.

(** [isinstance(e, reppy.exceptions.ServerError)] *)
Definition is_ServerError (e : exn) : bool :=
  match e with
  | Exc ServerError _ => true
  | _ => false
  end.


(** [isinstance(o, requests.exceptions.ProxyError)] *)
Definition is_requests_ProxyError (o : pyobj) : bool :=
  match o with
  | PyExc (Exc RequestsProxyError _) => true
  | _ => false
  end.

(** ** HTTP responses and sessions *)

(** [requests.structures.CaseInsensitiveDict]: header names compare equal
    when their lower-cased forms do. *)
Definition ci_dict := list (string * string).

(** [name in d] *)
Fixpoint ci_contains (d : ci_dict) (name : string) : bool :=
  match d with
  | [] => false
  | (k, _) :: rest =>
      String.eqb (PyStr.lower k) (PyStr.lower name) || ci_contains rest name
  end.

(** [d[name]] *)
Fixpoint ci_getitem (d : ci_dict) (name : string) : result string :=
  match d with
  | [] => Raise (Exc KeyError [PyText name])
  | (k, v) :: rest =>
      if String.eqb (PyStr.lower k) (PyStr.lower name) then Return v
      else ci_getitem rest name
  end.

(** [d[name] = v]: replaces the entry whose name matches, else adds one. *)
Fixpoint ci_setitem (d : ci_dict) (name v : string) : ci_dict :=
  match d with
  | [] => [(name, v)]
  | (k, v') :: rest =>
      if String.eqb (PyStr.lower k) (PyStr.lower name) then (name, v) :: rest
      else (k, v') :: ci_setitem rest name v
  end.

(** [d.update(other)] *)
Definition ci_update (d : ci_dict) (other : list (string * string)) : ci_dict :=
  fold_left (fun acc kv => ci_setitem acc (fst kv) (snd kv)) other d.

(** The parts of a [requests.Response] that the code reads. *)
Record Response := {
  status_code : Z;
  res_headers : ci_dict;
  text : string
}.

(** The parts of a [requests.Session] that the code configures. *)
Record Session := {
  verify : bool;
  proxies : list (string * string);
  headers : ci_dict
}.

(** A crawl site, as far as this module reads it. [extra_headers] is the
    value of the method [site.extra_headers()]; an absent or empty
    [user_agent] is falsy. *)
Record Site := {
  site_id : string;
  ignore_robots : bool;
  user_agent : option string;
  extra_headers : list (string * string)
}.

(** Truth value of an optional string: [None] and the empty string are falsy. *)
Definition truthy (o : option string) : option string :=
  match o with
  | Some EmptyString => None
  | Some s => Some s
  | None => None
  end.

(** [reppy.cache.RobotsCache(session=req_sesh)]. [oid] is the object's
    identity: two caches built by two constructor calls are two objects
    even when their sessions are configured alike. The robots.txt files a
    cache has fetched are state of the collaborator. *)
Record RobotsCache := {
  oid : nat;
  session : Session
}.

(** A record handed to [logging]: [logging.warn] with the number of tries
    left, or [logging.error]; both carry the url and the exception. *)
Inductive log_record :=
| LogWarn (tries_left : nat) (url : string) (e : exn)
| LogError (url : string) (e : exn).

(** ** The module, over its collaborators *)

Section Robots.

(** State of everything outside this module that a call can change or
    depend on: the network, the proxy, the files each reppy cache holds. *)
Context {World : Type}.

(** [requests.Session.get], the method [SessionRaiseOn420.get] extends. *)
Variable requests_get : Session -> string -> World -> result Response * World.

(** [json.loads]; raises [ValueError] on text that is not JSON. *)
Variable json_loads : string -> result json.

(** [requests.Session().headers], the library's default header set. *)
Variable default_headers : ci_dict.

(** [RobotsCache.allowed(url, agent)] of reppy: fetches and parses the
    site's robots.txt when the cache does not hold it, and answers; it
    raises what reppy lets through. *)
Variable allowed : RobotsCache -> string -> string -> World -> result bool * World.

(** *** [SessionRaiseOn420.get]

    The [ReachedLimit] is built from keyword arguments only, so its [args]
    tuple is empty. *)

Definition SessionRaiseOn420_get (self : Session) (url : string) (w : World)
  : result Response * World :=
  let '(r, w') := requests_get self url w in
  match r with
  | Raise e => (Raise e, w')
  | Return res =>
      if (status_code res =? 420)%Z && ci_contains (res_headers res) "warcprox-meta" then
        match ci_getitem (res_headers res) "warcprox-meta" with
        | Raise e => (Raise e, w')
        | Return v =>
            match json_loads v with
            | Raise e => (Raise e, w')
            | Return meta => (Raise (ReachedLimit [] meta (text res)), w')
            end
        end
      else (Return res, w')
  end.

(** *** Module state and [_robots_cache] *)

Record State := {
  _robots_caches : gmap string RobotsCache;   (* {site_id: RobotsCache} *)
  next_oid : nat;                             (* objects built so far *)
  world : World;
  log : list log_record;                      (* records logged, oldest first *)
  calls : list (nat * string * string)        (* calls of [allowed]: cache, url, agent *)
}.

(** The session built on a miss. *)
Definition new_session (site : Site) (proxy : option string) : Session :=
  let verify1 := false in
  let proxies1 :=
    match truthy proxy with
    | Some p => let proxie := "http://" ++ p in [("http", proxie); ("https", proxie)]
    | None => []
    end in
  let headers1 :=
    match extra_headers site with
    | [] => default_headers
    | hs => ci_update default_headers hs
    end in
  let headers2 :=
    match truthy (user_agent site) with
    | Some ua => ci_setitem headers1 "User-Agent" ua
    | None => headers1
    end in
  {| verify := verify1; proxies := proxies1; headers := headers2 |}.

Definition _robots_cache (site : Site) (proxy : option string) (st : State)
  : RobotsCache * State :=
  match _robots_caches st !! site_id site with
  | Some rc => (rc, st)
  | None =>
      let rc := {| oid := next_oid st; session := new_session site proxy |} in
      (rc, {| _robots_caches := <[site_id site := rc]> (_robots_caches st);
              next_oid := S (next_oid st);
              world := world st;
              log := log st;
              calls := calls st |})
  end.

(** *** [is_permitted_by_robots] *)

(** What the [except Exception as e] handler decides before it looks at
    [tries_left]: raise something, or fall to the retry branch. *)
Inductive handled :=
| Raises (e : exn)
| Retries.

(** The [elif] test and its branch. *)
Definition handle_proxy_error (e : exn) : handled :=
  match args0 e with
  | Raise ie => Raises ie
  | Return a0 =>
      if is_requests_ProxyError a0 then Raises (Exc BrozzlerProxyError [PyExc e])
      else Retries
  end.

(** The [if] test and its branch, then the [elif]. *)
Definition handle (e : exn) : handled :=
  if is_ServerError e then
    match args0 e with
    | Raise ie => Raises ie
    | Return (PyExc (ReachedLimit args meta payload)) =>
        Raises (ReachedLimit args meta payload)
    | Return _ => handle_proxy_error e
    end
  else handle_proxy_error e.



Definition log_emit (r : log_record) (st : State) : State :=
  {| _robots_caches := _robots_caches st; next_oid := next_oid st;
     world := world st; log := (log st ++ [r])%list; calls := calls st |}.

(** [site.user_agent or "brozzler"] *)
Definition agent_of (site : Site) : string :=
  match truthy (user_agent site) with Some ua => ua | None => "brozzler" end.

(** One evaluation of
    [_robots_cache(site, proxy).allowed(url, site.user_agent or "brozzler")]. *)
Definition call_allowed (site : Site) (url : string) (proxy : option string)
  (st : State) : result bool * State :=
  let '(rc, st1) := _robots_cache site proxy st in
  let agent := agent_of site in
  let '(r, w') := allowed rc url agent (world st1) in
  (r, {| _robots_caches := _robots_caches st1; next_oid := next_oid st1;
         world := w'; log := log st1;
         calls := (calls st1 ++ [(oid rc, url, agent)])%list |}).

(** The [while True] loop. [tries_left] only ever decreases, and only
    while positive, so it is a natural number and the loop is a structural
    recursion on it. *)
Fixpoint retry_loop (site : Site) (url : string) (proxy : option string)
  (tries_left : nat) (st : State) : result bool * State :=
  let '(r, st1) := call_allowed site url proxy st in
  match r with
  | Return result => (Return result, st1)
  | Raise e =>
      match handle e with
      | Raises e' => (Raise e', st1)
      | Retries =>
          match tries_left with
          | S n => retry_loop site url proxy n (log_emit (LogWarn tries_left url e) st1)
          | O => (Return false, log_emit (LogError url e) st1)
          end
      end
  end.

Definition is_permitted_by_robots (site : Site) (url : string)
  (proxy : option string) (st : State) : result bool * State :=
  if ignore_robots site then (Return true, st)
  else retry_loop site url proxy 10 st.

(** *** [_robots_cache] called from several threads

    Crawl workers are threads, and the interpreter may switch threads
    between any two statements of [_robots_cache]; the function takes no
    lock. A thread inside [_robots_cache] is at the membership test, at the
    construction of the cache, at the store into the dict, or at the final
    lookup. *)

Inductive pc :=
| AtTest
| AtBuild
| AtStore (rc : RobotsCache)
| AtReturn
| Returned (rc : RobotsCache)
| Failed (e : exn).

Record thread := {
  th_site : Site;
  th_proxy : option string;
  th_pc : pc
}.

Definition at_pc (t : thread) (p : pc) : thread :=
  {| th_site := th_site t; th_proxy := th_proxy t; th_pc := p |}.

(** One statement of [_robots_cache], run by thread [t]. *)
Definition thread_step (t : thread) (st : State) : thread * State :=
  let key := site_id (th_site t) in
  match th_pc t with
  | AtTest =>
      match _robots_caches st !! key with
      | Some _ => (at_pc t AtReturn, st)
      | None => (at_pc t AtBuild, st)
      end
  | AtBuild =>
      let rc := {| oid := next_oid st; session := new_session (th_site t) (th_proxy t) |} in
      (at_pc t (AtStore rc),
       {| _robots_caches := _robots_caches st; next_oid := S (next_oid st);
          world := world st; log := log st; calls := calls st |})
  | AtStore rc =>
      (at_pc t AtReturn,
       {| _robots_caches := <[key := rc]> (_robots_caches st); next_oid := next_oid st;
          world := world st; log := log st; calls := calls st |})
  | AtReturn =>
      match _robots_caches st !! key with
      | Some rc => (at_pc t (Returned rc), st)
      | None => (at_pc t (Failed (Exc KeyError [PyText key])), st)
      end
  | Returned _ | Failed _ => (t, st)
  end.

(** Two threads under a schedule: [true] lets the first thread run its next
    statement, [false] the second. *)
Fixpoint run_two (schedule : list bool) (t1 t2 : thread) (st : State)
  : thread * thread * State :=
  match schedule with
  | [] => (t1, t2, st)
  | true :: rest => let '(t1', st') := thread_step t1 st in run_two rest t1' t2 st'
  | false :: rest => let '(t2', st') := thread_step t2 st in run_two rest t1 t2' st'
  end.

(** A thread entering [_robots_cache(site, proxy)]. *)
Definition enter (site : Site) (proxy : option string) : thread :=
  {| th_site := site; th_proxy := proxy; th_pc := AtTest |}.

(** What a process does with this module over its lifetime: calls of
    [_robots_cache] and of [is_permitted_by_robots], one after the other. *)
Inductive op :=
| Resolve (site : Site) (proxy : option string)
| Permitted (site : Site) (url : string) (proxy : option string).

Fixpoint run_ops (ops : list op) (st : State) : State :=
  match ops with
  | [] => st
  | Resolve site proxy :: rest => run_ops rest (snd (_robots_cache site proxy st))
  | Permitted site url proxy :: rest =>
      run_ops rest (snd (is_permitted_by_robots site url proxy st))
  end.

(** *** Runs of the collaborator *)

(** The outcomes of [k] calls of [allowed] in a row from world [w]. *)
Fixpoint outcomes (rc : RobotsCache) (url agent : string) (k : nat) (w : World)
  : list (result bool) * World :=
  match k with
  | O => ([], w)
  | S k' =>
      let '(r, w1) := allowed rc url agent w in
      let '(rs, w2) := outcomes rc url agent k' w1 in
      (r :: rs, w2)
  end.

(** The outcome is an exception that the handler sends to the retry
    branch. *)
Definition transient (r : result bool) : bool :=
  match r with
  | Return _ => false
  | Raise e => match handle e with Retries => true | Raises _ => false end
  end.

(** The records a run added to the log, and the number of calls it made. *)
Definition logged (st st' : State) : list log_record :=
  drop (List.length (log st)) (log st').

Definition attempts (st st' : State) : nat :=
  List.length (calls st') - List.length (calls st).

Definition is_warning (r : log_record) : bool :=
  match r with LogWarn _ _ _ => true | LogError _ _ => false end.

Definition is_error (r : log_record) : bool :=
  match r with LogWarn _ _ _ => false | LogError _ _ => true end.


Definition errors (l : list log_record) : list log_record :=
  List.filter is_error l.

(** The tries-left count a warning carries. *)
Definition tries_of (r : log_record) : option nat :=
  match r with LogWarn n _ _ => Some n | LogError _ _ => None end.

(** [k] numbers counting down from [from]: [from], [from - 1], ... *)
Fixpoint countdown (from k : nat) : list nat :=
  match k with
  | O => []
  | S k' => from :: countdown (from - 1) k'
  end.

(** What the loop makes of the outcome of one call: the value it returns
    or the exception it raises, or nothing when the handler falls to the
    retry branch. *)
Definition verdict (r : result bool) : option (result bool) :=
  match r with
  | Return b => Some (Return b)
  | Raise e => match handle e with Raises x => Some (Raise x) | Retries => None end
  end.

(** The caches in the dict are objects built earlier, and no two site ids
    hold the same object. *)
Definition objects_distinct (st : State) : Prop :=
  (forall key rc, _robots_caches st !! key = Some rc -> oid rc < next_oid st) /\
  (forall key1 key2 rc1 rc2,
     _robots_caches st !! key1 = Some rc1 ->
     _robots_caches st !! key2 = Some rc2 ->
     oid rc1 = oid rc2 -> key1 = key2).

(** How many caches a thread inside [_robots_cache] may still build. *)
Definition may_build (t : thread) : nat :=
  match th_pc t with
  | AtTest | AtBuild => 1
  | _ => 0
  end.

(** A thread is past the point where its final lookup can fail: when it is
    at that lookup the dict holds its key, and it has not failed. *)
Definition lookup_safe (t : thread) (st : State) : Prop :=
  match th_pc t with
  | AtReturn => is_Some (_robots_caches st !! site_id (th_site t))
  | Failed _ => False
  | _ => True
  end.

End Robots.

(** ** Concrete collaborators, for running the code on inputs *)

Module Json.

(** A reader for a part of JSON: literals, integers, strings without
    escapes, arrays and objects. A text of that part is read as [json.loads]
    reads it (an object as its members in order), and a text that is not
    JSON is rejected as [json.loads] rejects it; JSON outside that part
    (fractions, exponents, escapes) is not read here. *)














End Json.

Module Demo.

(** A world that plays back prepared outcomes: the responses the transport
    hands to [requests.Session.get] and the outcomes of reppy's [allowed],
    each in the order of the calls. When the outcomes of [allowed] run out,
    every further call fails with a timeout raised by reppy (a
    [ServerError] around the transport's exception). *)
Record playback := {
  responses : list Response;
  answers : list (result bool)
}.

Definition timeout_error : exn :=
  Exc ServerError [PyExc (Exc (OtherException "requests.exceptions.Timeout")
                             [PyText "timed out"])].

Definition connection_error : exn :=
  Exc (OtherException "requests.exceptions.ConnectionError") [PyText "connection refused"].

Definition requests_get (self : Session) (url : string) (w : playback)
  : result Response * playback :=
  match responses w with
  | res :: rest => (Return res, {| responses := rest; answers := answers w |})
  | [] => (Raise connection_error, w)
  end.

Definition allowed (rc : RobotsCache) (url agent : string) (w : playback)
  : result bool * playback :=
  match answers w with
  | r :: rest => (r, {| responses := responses w; answers := rest |})
  | [] => (Raise timeout_error, w)
  end.

Definition default_headers : ci_dict :=
  [("User-Agent", "python-requests"); ("Accept-Encoding", "gzip, deflate");
   ("Accept", "*/*"); ("Connection", "keep-alive")].

(** The state of a process that has checked no site yet. *)
Definition fresh (w : playback) : @State playback :=
  {| _robots_caches := ∅; next_oid := 0; world := w; log := []; calls := [] |}.

Definition site1 : Site :=
  {| site_id := "site-1"; ignore_robots := false;
     user_agent := Some "examplebot/1.0"; extra_headers := [] |}.

Definition site_ignoring : Site :=
  {| site_id := "site-2"; ignore_robots := true;
     user_agent := None; extra_headers := [("X-Campaign", "7")] |}.

Definition url1 : string := "http://example.com/a/page.html".







(** A collaborator whose every call fails with the timeout. *)
Definition allowed_down (rc : RobotsCache) (url agent : string) (w : playback)
  : result bool * playback :=
  (Raise timeout_error, w).

(** Nothing prepared. *)
Definition idle : playback := {| responses := []; answers := [] |}.

(** Nine timeouts, then the answer [True]. *)
Definition flaky : playback :=
  {| responses := []; answers := (replicate 9 (Raise timeout_error) ++ [Return true])%list |}.

(** The same site id as [site1] with other settings. *)
Definition site1_again : Site :=
  {| site_id := "site-1"; ignore_robots := false;
     user_agent := Some "otherbot/2.0"; extra_headers := [("X-Campaign", "7")] |}.

(** reppy's [ServerError] around the transport's proxy error. *)
Definition proxy_down : exn :=
  Exc ServerError [PyExc (Exc RequestsProxyError [PyText "Cannot connect to proxy."])].

(** An exception raised with no argument, as in [raise socket.timeout()]. *)
Definition bare_timeout : exn := Exc (OtherException "socket.timeout") [].




Definition once (r : result bool) : playback := {| responses := []; answers := [r] |}.


(** The session of [site1]'s cache, no proxy. *)
Definition session1 : Session := new_session default_headers site1 None.

(** A [str.lower] that follows Unicode on the capital letters of Latin-1,
    which UTF-8 writes in two bytes, the first of them 195, and lower-cases
    ASCII letters; it is [str.lower] on texts of such letters. *)
Fixpoint str_lower (s : string) : string :=
  match s with
  | EmptyString => EmptyString
  | String c r =>
      if (nat_of_ascii c =? 195)%nat then
        match r with
        | String d r' =>
            let n := nat_of_ascii d in
            if (128 <=? n)%nat && (n <=? 158)%nat && negb (n =? 151)%nat
            then String c (String (ascii_of_nat (n + 32)) (str_lower r'))
            else String c (String d (str_lower r'))
        | EmptyString => String c EmptyString
        end
      else String (PyStr.lower_ascii c) (str_lower r)
  end.

(** A capital E with an acute accent and the small one, in UTF-8. *)
Definition E_acute : string := String (ascii_of_nat 195) (String (ascii_of_nat 137) EmptyString).
Definition e_acute : string := String (ascii_of_nat 195) (String (ascii_of_nat 169) EmptyString).

(** A site whose extra headers name a user agent of their own. *)
Definition site3 : Site :=
  {| site_id := "site-3"; ignore_robots := false;
     user_agent := Some "examplebot/1.0";
     extra_headers := [("user-agent", "headerbot/0.1"); ("X-Campaign", "7")] |}.

End Demo.

(** * Properties *)

(** ** Strings *)

Lemma append_String (c : ascii) (s t : string) :
  String c s ++ t = String c (s ++ t).
Proof. reflexivity. Qed.

Lemma append_Empty (t : string) : EmptyString ++ t = t.
Proof. reflexivity. Qed.

Lemma startswith_spec (s t : string) :
  PyStr.startswith s t = true <-> exists after, t = s ++ after.
Proof.
  revert t. induction s as [|a s IH]; intros t; simpl.
  - split; [intros _; now exists t | reflexivity].
  - setoid_rewrite append_String. destruct t as [|b t].
    + split; [discriminate | intros [after H]; discriminate].
    + destruct (Ascii.eqb_spec a b) as [->|Hne].
      * rewrite IH. split; intros [after H]; exists after; congruence.
      * split; [discriminate | intros [after H]; congruence].
Qed.

Lemma contains_spec (s t : string) :
  PyStr.contains s t = true <-> occurs_in s t.
Proof.
  unfold occurs_in. induction t as [|b t IH]; simpl.
  - rewrite orb_false_r, startswith_spec. split.
    + intros [after H]. exists EmptyString, after. exact H.
    + intros [before [after H]]. destruct before.
      * now exists after.
      * rewrite append_String in H. discriminate.
  - rewrite orb_true_iff, startswith_spec, IH. split.
    + intros [[after H] | [before [after H]]].
      * exists EmptyString, after. exact H.
      * exists (String b before), after. rewrite append_String. now rewrite H.
    + intros [before [after H]]. destruct before as [|c before].
      * left. now exists after.
      * right. exists before, after. rewrite append_String in H. congruence.
Qed.

Lemma contains_false (s t : string) :
  PyStr.contains s t = false <-> ~ occurs_in s t.
Proof.
  rewrite <- contains_spec. destruct (PyStr.contains s t); split; easy.
Qed.

(** Changing the case of ASCII text keeps it ASCII and does not change
    its lower-cased form. *)
Lemma lower_upper (s : string) : PyStr.lower (PyStr.upper s) = PyStr.lower s.
Proof.
  induction s as [|c s IH]; simpl; [reflexivity|]. rewrite IH. f_equal.
  destruct c as [[] [] [] [] [] [] [] []]; reflexivity.
Qed.

Lemma lower_lower (s : string) : PyStr.lower (PyStr.lower s) = PyStr.lower s.
Proof.
  induction s as [|c s IH]; simpl; [reflexivity|]. rewrite IH. f_equal.
  destruct c as [[] [] [] [] [] [] [] []]; reflexivity.
Qed.

Lemma is_ascii_upper (s : string) : PyStr.is_ascii (PyStr.upper s) = PyStr.is_ascii s.
Proof.
  induction s as [|c s IH]; simpl; [reflexivity|]. rewrite IH. f_equal.
  destruct c as [[] [] [] [] [] [] [] []]; reflexivity.
Qed.

Lemma is_ascii_lower (s : string) : PyStr.is_ascii (PyStr.lower s) = PyStr.is_ascii s.
Proof.
  induction s as [|c s IH]; simpl; [reflexivity|]. rewrite IH. f_equal.
  destruct c as [[] [] [] [] [] [] [] []]; reflexivity.
Qed.

(** ** [_reppy_rules_getitem] *)

Section RulesFacts.

Context {Group : Type}.
Variable str_lower : string -> string.
Implicit Types (agents : list (string * Group)) (agent lc s : string).

Lemma agents_get_app_notin agents1 agents2 s :
  (forall k g, In (k, g) agents1 -> k <> s) ->
  agents_get (agents1 ++ agents2)%list s = agents_get agents2 s.
Proof.
  induction agents1 as [|[k g] rest IH]; intros Hne; simpl; [reflexivity|].
  destruct (String.eqb_spec k s) as [->|_].
  - exfalso. apply (Hne s g); [now left | reflexivity].
  - apply IH. intros k' g' Hin. apply (Hne k' g'). now right.
Qed.

(** The scan finds nothing exactly when no key occurs in [lc]. *)
Lemma first_key_in_None agents lc :
  first_key_in (map fst agents) lc = None <->
  (forall k g, In (k, g) agents -> ~ occurs_in k lc).
Proof.
  induction agents as [|[k g] rest IH]; simpl.
  - split; [intros _ k g [] | reflexivity].
  - destruct (PyStr.contains k lc) eqn:Hc.
    + split; [discriminate|]. intros H. exfalso.
      apply (H k g); [now left | now apply contains_spec].
    + rewrite IH. apply contains_false in Hc. split.
      * intros H k' g' [Heq | Hin]; [congruence | eauto].
      * intros H k' g' Hin. apply (H k' g'). now right.
Qed.

(** When it finds a key, that is the first one, in iteration order, that
    occurs in [lc]. *)
Lemma first_key_in_Some agents lc s :
  first_key_in (map fst agents) lc = Some s ->
  exists earlier g later,
    agents = (earlier ++ (s, g) :: later)%list /\
    (forall k g', In (k, g') earlier -> ~ occurs_in k lc) /\
    occurs_in s lc.
Proof.
  induction agents as [|[k g] rest IH]; simpl; [discriminate|].
  destruct (PyStr.contains k lc) eqn:Hc.
  - intros [= <-]. exists [], g, rest. repeat split.
    + intros ? ? [].
    + now apply contains_spec.
  - intros H. destruct (IH H) as (earlier & g0 & later & -> & Hearly & Hocc).
    exists ((k, g) :: earlier), g0, later. repeat split; [|exact Hocc].
    intros k' g' [[= <- <-] | Hin]; [now apply contains_false | eauto].
Qed.

(** C5. The lookup is a case-insensitive substring match, for every dict of
    groups and every agent string; Python's [str.lower] is taken as it is,
    known to lower-case ASCII text letter by letter. The test the scan
    applies to a key is that the key occurs somewhere in the lower-cased
    agent string. When some key occurs there, the lookup returns the group
    of the first such key in the dict's iteration order; when none does, it
    returns the group under the key [*] if there is one and nothing
    otherwise. The case of the agent's letters plays no part: an ASCII
    agent string, the same in capitals and the same in small letters get
    the same answer. With the keys [bot] and [*], in either order, the
    agent [examplebot/1.0] gets the group of [bot] and [unknownclient/2.0]
    the group of [*], and so do [ExampleBOT/1.0] and [UnknownClient/2.0]. *)
Theorem getitem_substring_match agents agent :
  (forall s, PyStr.is_ascii s = true -> str_lower s = PyStr.lower s) ->
  (forall s, PyStr.contains s (str_lower agent) = true <->
             occurs_in s (str_lower agent)) /\
  ((exists k g, In (k, g) agents /\ occurs_in k (str_lower agent)) ->
   exists earlier s g later,
     agents = (earlier ++ (s, g) :: later)%list /\
     (forall k g', In (k, g') earlier -> ~ occurs_in k (str_lower agent)) /\
     occurs_in s (str_lower agent) /\
     _reppy_rules_getitem str_lower agents agent = Some g) /\
  ((forall k g, In (k, g) agents -> ~ occurs_in k (str_lower agent)) ->
   _reppy_rules_getitem str_lower agents agent = agents_get agents "*") /\
  (PyStr.is_ascii agent = true ->
   _reppy_rules_getitem str_lower agents (PyStr.upper agent) =
     _reppy_rules_getitem str_lower agents agent /\
   _reppy_rules_getitem str_lower agents (PyStr.lower agent) =
     _reppy_rules_getitem str_lower agents agent) /\
  (forall bot star : Group,
     _reppy_rules_getitem str_lower [("bot", bot); ("*", star)] "examplebot/1.0" = Some bot /\
     _reppy_rules_getitem str_lower [("*", star); ("bot", bot)] "examplebot/1.0" = Some bot /\
     _reppy_rules_getitem str_lower [("bot", bot); ("*", star)] "unknownclient/2.0" = Some star /\
     _reppy_rules_getitem str_lower [("*", star); ("bot", bot)] "unknownclient/2.0" = Some star /\
     _reppy_rules_getitem str_lower [("bot", bot); ("*", star)] "ExampleBOT/1.0" = Some bot /\
     _reppy_rules_getitem str_lower [("*", star); ("bot", bot)] "ExampleBOT/1.0" = Some bot /\
     _reppy_rules_getitem str_lower [("bot", bot); ("*", star)] "UnknownClient/2.0" = Some star /\
     _reppy_rules_getitem str_lower [("*", star); ("bot", bot)] "UnknownClient/2.0" = Some star).
Proof.
  intros Hlower.
  split; [intros s; apply contains_spec|].
  split; [|split; [|split]].
  - intros (k & g & Hin & Hocc). unfold _reppy_rules_getitem.
    destruct (first_key_in (map fst agents) (str_lower agent)) as [s|] eqn:Hscan.
    + destruct (first_key_in_Some _ _ _ Hscan) as (earlier & g0 & later & Heq & Hearly & Hs).
      exists earlier, s, g0, later. repeat split; try assumption.
      rewrite Heq, agents_get_app_notin.
      * simpl. now rewrite String.eqb_refl.
      * intros k' g' Hin' ->. now apply (Hearly s g').
    + exfalso. apply (proj1 (first_key_in_None _ _) Hscan k g Hin Hocc).
  - intros Hnone. unfold _reppy_rules_getitem.
    now rewrite (proj2 (first_key_in_None _ _) Hnone).
  - intros Hascii. unfold _reppy_rules_getitem.
    rewrite (Hlower (PyStr.upper agent)) by now rewrite is_ascii_upper.
    rewrite (Hlower (PyStr.lower agent)) by now rewrite is_ascii_lower.
    rewrite (Hlower agent Hascii), lower_upper, lower_lower. split; reflexivity.
  - intros bot star. unfold _reppy_rules_getitem.
    rewrite !Hlower by reflexivity. repeat split; reflexivity.
Qed.

End RulesFacts.

(** ** [_robots_cache] *)

Section RobotsFacts.

Context {World : Type}.
Variable requests_get : Session -> string -> World -> result Response * World.
Variable json_loads : string -> result json.
Variable default_headers : ci_dict.
Variable allowed : RobotsCache -> string -> string -> World -> result bool * World.

Local Abbreviation State := (@State World).
Local Abbreviation robots_cache := (_robots_cache default_headers).
Local Abbreviation call := (call_allowed default_headers allowed).
Local Abbreviation loop := (retry_loop default_headers allowed).

Implicit Types (st : State) (site : Site) (proxy : option string) (rc : RobotsCache).

(** A hit returns the stored cache and changes nothing. *)
Lemma robots_cache_hit site proxy st rc :
  _robots_caches st !! site_id site = Some rc ->
  robots_cache site proxy st = (rc, st).
Proof. intros H. unfold _robots_cache. now rewrite H. Qed.

(** After a call the dict holds what the call returned; only the dict and
    the object count can have changed. *)
Lemma robots_cache_stores site proxy st :
  let '(rc, st1) := robots_cache site proxy st in
  _robots_caches st1 !! site_id site = Some rc /\
  world st1 = world st /\ log st1 = log st /\ calls st1 = calls st.
Proof.
  unfold _robots_cache.
  destruct (_robots_caches st !! site_id site) as [rc|] eqn:H; simpl.
  - auto.
  - now rewrite lookup_insert_eq.
Qed.


(** ** The retry loop *)

(** One evaluation of the call on a state that holds the site's cache. *)
Lemma call_hit site url proxy st rc :
  _robots_caches st !! site_id site = Some rc ->
  call site url proxy st =
  (fst (allowed rc url (agent_of site) (world st)),
   {| _robots_caches := _robots_caches st; next_oid := next_oid st;
      world := snd (allowed rc url (agent_of site) (world st));
      log := log st;
      calls := (calls st ++ [(oid rc, url, agent_of site)])%list |}).
Proof.
  intros H. unfold call_allowed. rewrite (robots_cache_hit _ _ _ _ H).
  now destruct (allowed rc url (agent_of site) (world st)).
Qed.

(** The first evaluation builds the cache when it is missing; from then on
    the loop runs as if started on the state that holds it. *)
Lemma call_resolved site url proxy st :
  call site url proxy st = call site url proxy (snd (robots_cache site proxy st)).
Proof.
  unfold call_allowed.
  pose proof (robots_cache_stores site proxy st) as H.
  destruct (robots_cache site proxy st) as [rc st1] eqn:E. simpl.
  destruct H as (H & _). now rewrite (robots_cache_hit _ _ _ _ H).
Qed.

Lemma loop_resolved site url proxy tries st :
  loop site url proxy tries st =
  loop site url proxy tries (snd (robots_cache site proxy st)).
Proof. destruct tries; simpl; now rewrite <- call_resolved. Qed.

(** [k] transient failures in a row use up [k] tries: the loop goes on as
    with [k] tries fewer, [k] calls made and [k] warnings logged, which
    carry the counts [tries], [tries - 1], ... *)
Lemma loop_after_failures site url proxy k :
  forall tries st rc,
    k <= tries ->
    _robots_caches st !! site_id site = Some rc ->
    forallb transient (fst (outcomes allowed rc url (agent_of site) k (world st))) = true ->
    exists st_k ws,
      loop site url proxy tries st = loop site url proxy (tries - k) st_k /\
      _robots_caches st_k = _robots_caches st /\
      next_oid st_k = next_oid st /\
      world st_k = snd (outcomes allowed rc url (agent_of site) k (world st)) /\
      calls st_k = (calls st ++ replicate k (oid rc, url, agent_of site))%list /\
      log st_k = (log st ++ ws)%list /\
      map tries_of ws = map Some (countdown tries k) /\
      forallb is_warning ws = true.
Proof.
  induction k as [|k IH]; intros tries st rc Hle Hhit Hall.
  - exists st, []. rewrite Nat.sub_0_r, !app_nil_r. repeat split; reflexivity.
  - destruct tries as [|n]; [lia|].
    simpl in Hall |- *.
    rewrite (call_hit _ _ _ _ _ Hhit).
    destruct (allowed rc url (agent_of site) (world st)) as [r w1] eqn:Ea.
    destruct (outcomes allowed rc url (agent_of site) k w1) as [rs w2] eqn:Eo.
    simpl in Hall |- *. apply andb_true_iff in Hall as [Hr Hrs].
    destruct r as [b|e]; [discriminate|]. simpl in Hr.
    destruct (handle e); [discriminate|].
    match goal with |- context [loop _ _ _ n ?s] => set (st1 := s) end.
    destruct (IH n st1 rc) as (st_k & ws & Hloop & Hc & Ho & Hw & Hcalls & Hlog & Htries & Hwarn).
    + lia.
    + exact Hhit.
    + simpl. now rewrite Eo.
    + exists st_k, (LogWarn (S n) url e :: ws). simpl in *. rewrite Eo in Hw. simpl in Hw.
      repeat split; try assumption.
      * rewrite Hcalls, <- app_assoc. reflexivity.
      * rewrite Hlog, <- app_assoc. reflexivity.
      * simpl. rewrite Nat.sub_0_r. now f_equal.
Qed.

Lemma outcomes_length rc url agent k (w : World) :
  List.length (fst (outcomes allowed rc url agent k w)) = k.
Proof.
  revert w. induction k as [|k IH]; intros w; simpl; [reflexivity|].
  destruct (allowed rc url agent w) as [r w1].
  specialize (IH w1). destruct (outcomes allowed rc url agent k w1). simpl in *. now rewrite IH.
Qed.

(** [k + 1] calls are [k] calls and one more. *)
Lemma outcomes_S_last rc url agent k (w : World) :
  outcomes allowed rc url agent (S k) w =
  ((fst (outcomes allowed rc url agent k w) ++
    [fst (allowed rc url agent (snd (outcomes allowed rc url agent k w)))])%list,
   snd (allowed rc url agent (snd (outcomes allowed rc url agent k w)))).
Proof.
  revert w. induction k as [|k IH]; intros w.
  - simpl. now destruct (allowed rc url agent w).
  - change (outcomes allowed rc url agent (S (S k)) w)
      with (let '(r, w1) := allowed rc url agent w in
            let '(rs, w2) := outcomes allowed rc url agent (S k) w1 in (r :: rs, w2)).
    change (outcomes allowed rc url agent (S k) w)
      with (let '(r, w1) := allowed rc url agent w in
            let '(rs, w2) := outcomes allowed rc url agent k w1 in (r :: rs, w2)).
    destruct (allowed rc url agent w) as [r w1]. rewrite IH.
    now destruct (outcomes allowed rc url agent k w1).
Qed.

Lemma outcomes_all_transient rc url agent k (w : World) :
  (forall w', transient (fst (allowed rc url agent w')) = true) ->
  forallb transient (fst (outcomes allowed rc url agent k w)) = true.
Proof.
  intros H. revert w. induction k as [|k IH]; intros w; simpl; [reflexivity|].
  specialize (H w). destruct (allowed rc url agent w) as [r w1].
  specialize (IH w1). destruct (outcomes allowed rc url agent k w1).
  simpl in *. now rewrite H, IH.
Qed.

(** What one evaluation of the call leaves behind. *)
Lemma call_effects site url proxy st :
  log (snd (call site url proxy st)) = log st /\
  List.length (calls (snd (call site url proxy st))) = S (List.length (calls st)).
Proof.
  rewrite call_resolved.
  pose proof (robots_cache_stores site proxy st) as H.
  destruct (robots_cache site proxy st) as [rc st1]. destruct H as (Hhit & _ & Hlog & Hcalls).
  simpl. rewrite (call_hit _ _ _ _ _ Hhit). simpl.
  rewrite length_app, Hlog, Hcalls. simpl. split; [reflexivity | lia].
Qed.

Lemma logged_app st st' (ws : list log_record) :
  log st' = (log st ++ ws)%list -> logged st st' = ws.
Proof. intros H. unfold logged. rewrite H. apply drop_app_length. Qed.

(** When the handler raises, the loop ends there, whatever [tries_left]
    is: nothing is logged and the call was the only one. *)
Lemma loop_raises site url proxy tries st e e' :
  fst (call site url proxy st) = Raise e ->
  handle e = Raises e' ->
  loop site url proxy tries st = (Raise e', snd (call site url proxy st)) /\
  logged st (snd (call site url proxy st)) = [] /\
  attempts st (snd (call site url proxy st)) = 1.
Proof.
  intros Hcall Hh. destruct (call_effects site url proxy st) as [Hlog Hcalls].
  split; [|split].
  - destruct (call site url proxy st) as [r st1] eqn:E. simpl in Hcall. subst r.
    destruct tries; simpl; rewrite E, Hh; reflexivity.
  - apply logged_app. now rewrite app_nil_r.
  - unfold attempts. lia.
Qed.



(** The loop started with [tries] tries on a state where every call fails
    transiently. *)
Lemma loop_exhausts site url proxy tries st rc :
  _robots_caches st !! site_id site = Some rc ->
  (forall w, transient (fst (allowed rc url (agent_of site) w)) = true) ->
  exists st',
    loop site url proxy tries st = (Return false, st') /\
    attempts st st' = S tries /\
    map tries_of (logged st st') = (map Some (countdown tries tries) ++ [None])%list.
Proof.
  intros Hhit Hall.
  destruct (loop_after_failures site url proxy tries tries st rc (le_n _) Hhit
              (outcomes_all_transient _ _ _ _ _ Hall))
    as (st_k & ws & Hloop & Hc & _ & Hw & Hcalls & Hlog & Htries & Hwarn).
  rewrite Nat.sub_diag in Hloop. rewrite <- Hc in Hhit.
  pose proof (call_hit site url proxy st_k rc Hhit) as Hcall.
  specialize (Hall (world st_k)).
  destruct (allowed rc url (agent_of site) (world st_k)) as [r w'] eqn:Ea.
  simpl in Hall, Hcall. destruct r as [b|e]; [discriminate|]. simpl in Hall.
  destruct (handle e) eqn:Hh; [discriminate|].
  eexists. split; [|split].
  - rewrite Hloop. simpl. rewrite Hcall, Hh. reflexivity.
  - unfold attempts. simpl. rewrite Hcalls, !length_app, length_replicate. simpl. lia.
  - rewrite (logged_app st _ (ws ++ [LogError url e])).
    + rewrite map_app, Htries. reflexivity.
    + simpl. rewrite Hlog, <- app_assoc. reflexivity.
Qed.

(** C4. With [site.ignore_robots] set the check returns [True] at once, for
    every url and proxy: the state comes back as it was, so no cache or
    session was built or looked up, the dict is untouched, the collaborator
    was not called and nothing was logged. *)
Theorem ignore_robots_permits site url proxy st :
  ignore_robots site = true ->
  is_permitted_by_robots default_headers allowed site url proxy st = (Return true, st).
Proof. intros H. unfold is_permitted_by_robots. now rewrite H. Qed.




(** C2, as the code runs. When every call fails transiently, the check
    returns [False] and logs one error record, but only after 11 calls and
    10 warnings: the try that finds [tries_left] at 0 is the eleventh. *)
Theorem all_attempts_fail site url proxy st :
  ignore_robots site = false ->
  (forall rc w, transient (fst (allowed rc url (agent_of site) w)) = true) ->
  fst (is_permitted_by_robots default_headers allowed site url proxy st) = Return false /\
  attempts st (snd (is_permitted_by_robots default_headers allowed site url proxy st)) = 11 /\
  map tries_of
    (logged st (snd (is_permitted_by_robots default_headers allowed site url proxy st))) =
    [Some 10; Some 9; Some 8; Some 7; Some 6; Some 5; Some 4; Some 3; Some 2; Some 1; None] /\
  List.length
    (errors (logged st (snd (is_permitted_by_robots default_headers allowed site url proxy st)))) = 1.
Proof.
  intros Hig Hall. unfold is_permitted_by_robots. rewrite Hig, loop_resolved.
  pose proof (robots_cache_stores site proxy st) as H.
  destruct (robots_cache site proxy st) as [rc st1]. cbn [fst snd] in *.
  destruct H as (Hhit & Hw & Hlog & Hcalls).
  destruct (loop_exhausts site url proxy 10 st1 rc Hhit (Hall rc)) as (st' & -> & Hatt & Htries).
  unfold attempts, logged in *. rewrite Hlog, Hcalls in *. cbn [fst snd] in *.
  repeat split; try assumption.
  remember (drop (List.length (log st)) (log st')) as l eqn:El. clear El.
  do 11 (destruct l as [|[] l]; try discriminate). destruct l; [reflexivity | discriminate].
Qed.

Lemma ci_contains_getitem (d : ci_dict) (name : string) :
  ci_contains d name = true <-> exists v, ci_getitem d name = Return v.
Proof.
  induction d as [|[k v] rest IH]; simpl.
  - split; [discriminate | intros [v H]; discriminate].
  - destruct (String.eqb (PyStr.lower k) (PyStr.lower name)); simpl.
    + split; [intros _; now exists v | reflexivity].
    + exact IH.
Qed.



(** C8, as the code runs. When the call raises an exception whose [args]
    is the empty tuple, the handler's [e.args[0]] raises [IndexError], and
    that is what the caller gets. *)
Theorem empty_args_escape_as_IndexError site url proxy tries st e :
  fst (call_allowed default_headers allowed site url proxy st) = Raise e ->
  exn_args e = [] ->
  fst (retry_loop default_headers allowed site url proxy tries st) =
    Raise (Exc IndexError [PyText "tuple index out of range"]).
Proof.
  intros Hcall Hargs.
  assert (handle e = Raises (Exc IndexError [PyText "tuple index out of range"])) as Hh.
  { unfold handle, handle_proxy_error, args0. rewrite Hargs. now destruct (is_ServerError e). }
  destruct (loop_raises site url proxy tries st e _ Hcall Hh) as [-> _]. reflexivity.
Qed.






(** ** [_robots_cache] under two threads *)

(** A thread that runs alone through [_robots_cache] does what the
    function does. *)
Lemma thread_alone site proxy st :
  let '(t1, st1) := thread_step default_headers (enter site proxy) st in
  let '(t2, st2) := thread_step default_headers t1 st1 in
  let '(t3, st3) := thread_step default_headers t2 st2 in
  let '(t4, st4) := thread_step default_headers t3 st3 in
  (th_pc t4, st4) =
  (Returned (fst (_robots_cache default_headers site proxy st)),
   snd (_robots_cache default_headers site proxy st)).
Proof.
  unfold thread_step, enter, _robots_cache, at_pc. cbn [th_pc th_site th_proxy].
  destruct (_robots_caches st !! site_id site) as [rc|] eqn:H; cbn [th_pc th_site th_proxy].
  - rewrite H. cbn [th_pc th_site th_proxy fst snd]. reflexivity.
  - cbn [_robots_caches]. rewrite lookup_insert_eq. cbn [th_pc th_site th_proxy fst snd].
    reflexivity.
Qed.

(** C9, as the code has it. Two first calls for the same site id that do
    not overlap (one thread runs [_robots_cache] to its end before the
    other starts, in either order) build exactly one cache: the thread that
    ran first builds it, the other finds it in the dict, and both return
    it. Nothing is fetched: the collaborator is left as it was. *)
Theorem first_calls_in_turn_build_one site proxy site' proxy' st :
  site_id site' = site_id site ->
  _robots_caches st !! site_id site = None ->
  (let r := run_two default_headers (replicate 4 true ++ replicate 4 false)
              (enter site proxy) (enter site' proxy') st in
   th_pc (fst (fst r)) = Returned (fst (_robots_cache default_headers site proxy st)) /\
   th_pc (snd (fst r)) = Returned (fst (_robots_cache default_headers site proxy st)) /\
   next_oid (snd r) = S (next_oid st) /\ world (snd r) = world st) /\
  (let r := run_two default_headers (replicate 4 false ++ replicate 4 true)
              (enter site proxy) (enter site' proxy') st in
   th_pc (fst (fst r)) = Returned (fst (_robots_cache default_headers site' proxy' st)) /\
   th_pc (snd (fst r)) = Returned (fst (_robots_cache default_headers site' proxy' st)) /\
   next_oid (snd r) = S (next_oid st) /\ world (snd r) = world st).
Proof.
  intros Hid Hnone.
  destruct site as [key ig ua hs], site' as [key' ig' ua' hs'].
  cbn [site_id] in Hid, Hnone. subst key'.
  split; cbn [replicate app run_two];
    unfold thread_step, enter, _robots_cache, at_pc;
    repeat (cbn [th_pc th_site th_proxy site_id _robots_caches next_oid world fst snd];
            rewrite ?Hnone, ?lookup_insert_eq);
    auto.
Qed.

End RobotsFacts.

(** ** The code on concrete inputs *)

Local Abbreviation permitted := (is_permitted_by_robots Demo.default_headers Demo.allowed).


Lemma demo_str_lower_ascii (s : string) :
  PyStr.is_ascii s = true -> Demo.str_lower s = PyStr.lower s.
Proof.
  induction s as [|c s IH]; [reflexivity|]. cbn [PyStr.is_ascii Demo.str_lower PyStr.lower].
  intros H. apply andb_true_iff in H as [Hc Hs]. apply Nat.ltb_lt in Hc.
  destruct (Nat.eqb_spec (nat_of_ascii c) 195) as [E|_]; [lia|]. now rewrite IH.
Qed.

Lemma getitem_substring_match_witness :
  _reppy_rules_getitem Demo.str_lower [("bot", 1); ("*", 0)] "ExampleBOT/1.0" = Some 1 /\
  _reppy_rules_getitem Demo.str_lower [("bot", 1); ("*", 0)] "UnknownClient/2.0" = Some 0 /\
  _reppy_rules_getitem Demo.str_lower [(Demo.e_acute ++ "xample", 1); ("*", 0)]
    (Demo.E_acute ++ "xampleBot/1.0") = Some 1.
Proof.
  destruct (getitem_substring_match Demo.str_lower [("bot", 1); ("*", 0)] "ExampleBOT/1.0"
              demo_str_lower_ascii) as (_ & _ & _ & _ & Hex).
  destruct (Hex 1 0) as (_ & _ & _ & _ & Hbot & _ & Hstar & _).
  split; [exact Hbot|]. split; [exact Hstar|]. reflexivity.
Defined.


Lemma all_attempts_fail_witness :
  fst (is_permitted_by_robots Demo.default_headers Demo.allowed_down
         Demo.site1 Demo.url1 None (Demo.fresh Demo.idle)) = Return false /\
  attempts (Demo.fresh Demo.idle)
    (snd (is_permitted_by_robots Demo.default_headers Demo.allowed_down
            Demo.site1 Demo.url1 None (Demo.fresh Demo.idle))) = 11.
Proof.
  destruct (all_attempts_fail Demo.default_headers Demo.allowed_down
              Demo.site1 Demo.url1 None (Demo.fresh Demo.idle))
    as (Hr & Hn & _); [reflexivity | intros rc w; reflexivity |].
  split; assumption.
Defined.



Lemma ignore_robots_permits_witness :
  permitted Demo.site_ignoring Demo.url1 (Some "localhost:8000") (Demo.fresh Demo.idle) =
  (Return true, Demo.fresh Demo.idle).
Proof. apply ignore_robots_permits. reflexivity. Defined.




Lemma empty_args_escape_as_IndexError_witness :
  fst (retry_loop Demo.default_headers Demo.allowed Demo.site1 Demo.url1 None 10
         (Demo.fresh (Demo.once (Raise Demo.bare_timeout)))) =
  Raise (Exc IndexError [PyText "tuple index out of range"]).
Proof.
  apply (empty_args_escape_as_IndexError Demo.default_headers Demo.allowed Demo.site1
           Demo.url1 None 10 _ Demo.bare_timeout); reflexivity.
Defined.

(** C9: two threads make the first call for [site1] and the second thread
    runs its membership test before the first has stored its cache. Both
    find the dict empty, two caches are built, and each thread returns its
    own. *)
Lemma racing_first_calls_build_two :
  run_two Demo.default_headers [true; false; true; true; true; false; false; false]
    (enter Demo.site1 None) (enter Demo.site1 (Some "localhost:8000"))
    (Demo.fresh Demo.idle) =
  ({| th_site := Demo.site1; th_proxy := None;
      th_pc := Returned {| oid := 0; session := Demo.session1 |} |},
   {| th_site := Demo.site1; th_proxy := Some "localhost:8000";
      th_pc := Returned {| oid := 1;
                           session := new_session Demo.default_headers Demo.site1
                                        (Some "localhost:8000") |} |},
   {| _robots_caches :=
        {[ "site-1" := {| oid := 1;
                          session := new_session Demo.default_headers Demo.site1
                                       (Some "localhost:8000") |} ]};
      next_oid := 2; world := Demo.idle; log := []; calls := [] |}).
Proof. vm_compute. reflexivity. Qed.

Lemma first_calls_in_turn_build_one_witness :
  next_oid
    (snd (run_two Demo.default_headers (replicate 4 true ++ replicate 4 false)
            (enter Demo.site1 None) (enter Demo.site1 (Some "localhost:8000"))
            (Demo.fresh Demo.idle))) = 1.
Proof.
  destruct (first_calls_in_turn_build_one Demo.default_headers Demo.site1 None Demo.site1
              (Some "localhost:8000") (Demo.fresh Demo.idle) eq_refl eq_refl)
    as [(_ & _ & H & _) _].
  exact H.
Defined.



(** * Further properties *)

(** ** More on [_reppy_rules_getitem] *)

Lemma lower_ascii_not_upper (c : ascii) : is_upper (PyStr.lower_ascii c) = false.
Proof. destruct c as [[] [] [] [] [] [] [] []]; reflexivity. Qed.

Lemma lower_has_no_upper (s : string) : has_upper (PyStr.lower s) = false.
Proof.
  induction s as [|c s IH]; simpl; [reflexivity|].
  now rewrite lower_ascii_not_upper, IH.
Qed.

Lemma has_upper_append (s t : string) :
  has_upper (s ++ t) = has_upper s || has_upper t.
Proof.
  induction s as [|c s IH]; [reflexivity|].
  rewrite append_String. simpl. now rewrite IH, orb_assoc.
Qed.

(** A text with a capital letter occurs in no text without one. *)
Lemma upper_never_occurs (s t : string) :
  has_upper s = true -> has_upper t = false -> PyStr.contains s t = false.
Proof.
  intros Hs Ht. apply contains_false. intros (before & after & ->).
  rewrite !has_upper_append, Hs, orb_true_r in Ht. discriminate.
Qed.

Section MoreRulesFacts.

Context {Group : Type}.
Variable str_lower : string -> string.
Implicit Types (agents : list (string * Group)) (agent lc s : string).

Lemma agents_get_In agents s g :
  agents_get agents s = Some g -> In (s, g) agents.
Proof.
  induction agents as [|[k g'] rest IH]; simpl; [discriminate|].
  destruct (String.eqb_spec k s) as [->|_].
  - intros [= ->]. now left.
  - intros H. right. now apply IH.
Qed.

Lemma agents_get_None agents s :
  agents_get agents s = None <-> (forall g, ~ In (s, g) agents).
Proof.
  induction agents as [|[k g'] rest IH]; simpl.
  - split; [intros _ g [] | reflexivity].
  - destruct (String.eqb_spec k s) as [->|Hne].
    + split; [discriminate|]. intros H. exfalso. apply (H g'). now left.
    + rewrite IH. split.
      * intros H g [[= -> _]|Hin]; [congruence | now apply (H g)].
      * intros H g Hin. apply (H g). now right.
Qed.

(** X1. Whatever group the lookup returns is stored in the dict under a key
    that occurs in the lower-cased agent string, or under the key [*]; and
    the lookup returns nothing exactly when no key occurs in that string and
    the dict has no key [*]. *)
Theorem getitem_returns_matching_or_wildcard agents agent :
  (forall g, _reppy_rules_getitem str_lower agents agent = Some g ->
     exists k, In (k, g) agents /\ (occurs_in k (str_lower agent) \/ k = "*")) /\
  (_reppy_rules_getitem str_lower agents agent = None <->
     (forall k g, In (k, g) agents -> ~ occurs_in k (str_lower agent) /\ k <> "*")).
Proof.
  unfold _reppy_rules_getitem.
  destruct (first_key_in (map fst agents) (str_lower agent)) as [s|] eqn:Hscan.
  - destruct (first_key_in_Some _ _ _ Hscan) as (earlier & g0 & later & Heq & Hearly & Hs).
    assert (agents_get agents s = Some g0) as Hget.
    { rewrite Heq, agents_get_app_notin.
      - simpl. now rewrite String.eqb_refl.
      - intros k' g' Hin' ->. now apply (Hearly s g'). }
    rewrite Hget. split.
    + intros g [= <-]. exists s. split; [|now left].
      rewrite Heq. apply in_or_app. right. now left.
    + split; [discriminate|]. intros H. exfalso.
      destruct (H s g0) as [Hno _]; [|now apply Hno].
      rewrite Heq. apply in_or_app. right. now left.
  - pose proof (proj1 (first_key_in_None _ _) Hscan) as Hnone. split.
    + intros g Hg. exists "*". split; [now apply agents_get_In | now right].
    + rewrite agents_get_None. split.
      * intros Hstar k g Hin. split; [now apply (Hnone k g)|]. intros ->. now apply (Hstar g).
      * intros H g Hin. now destruct (H "*" g Hin).
Qed.

(** X2. Among keys that occur in the agent string the dict's iteration
    order decides, not their length: of two such keys the one listed first
    gives the group, so the same two entries in the other order give the
    other group. *)
Theorem getitem_first_listed_key_wins agents agent k1 g1 k2 g2 :
  occurs_in k1 (str_lower agent) ->
  occurs_in k2 (str_lower agent) ->
  _reppy_rules_getitem str_lower ((k1, g1) :: (k2, g2) :: agents) agent = Some g1 /\
  _reppy_rules_getitem str_lower ((k2, g2) :: (k1, g1) :: agents) agent = Some g2.
Proof.
  intros H1 H2. apply contains_spec in H1, H2.
  unfold _reppy_rules_getitem. simpl. rewrite H1, H2. simpl.
  now rewrite !String.eqb_refl.
Qed.

Lemma first_key_in_occurs (keys : list string) lc s :
  first_key_in keys lc = Some s -> PyStr.contains s lc = true.
Proof.
  induction keys as [|k rest IH]; simpl; [discriminate|].
  destruct (PyStr.contains k lc) eqn:Hk; [now intros [= <-] | exact IH].
Qed.

Lemma first_key_in_lower_keyed agents lc :
  has_upper lc = false ->
  first_key_in (map fst (List.filter lower_keyed agents)) lc =
  first_key_in (map fst agents) lc.
Proof.
  intros Hlc. induction agents as [|[k g] rest IH]; simpl; [reflexivity|].
  unfold lower_keyed at 1. simpl. destruct (has_upper k) eqn:Hk; simpl.
  - now rewrite (upper_never_occurs k lc Hk Hlc).
  - now rewrite IH.
Qed.

Lemma agents_get_lower_keyed agents s :
  has_upper s = false ->
  agents_get (List.filter lower_keyed agents) s = agents_get agents s.
Proof.
  intros Hs. induction agents as [|[k g] rest IH]; simpl; [reflexivity|].
  unfold lower_keyed at 1. simpl. destruct (has_upper k) eqn:Hk; simpl.
  - destruct (String.eqb_spec k s) as [->|_]; [congruence | exact IH].
  - now rewrite IH.
Qed.

(** X3. Only the agent string is lower-cased, the keys are compared as they
    are: an entry whose key has a capital letter is never used, so the
    lookup gives the same answer with all such entries removed. (That
    [str.lower] leaves no ASCII capital in its result is what this rests
    on.) *)
Theorem getitem_ignores_capital_keys agents agent :
  (forall s, has_upper (str_lower s) = false) ->
  _reppy_rules_getitem str_lower agents agent =
  _reppy_rules_getitem str_lower (List.filter lower_keyed agents) agent.
Proof.
  intros Hlower. unfold _reppy_rules_getitem.
  rewrite (first_key_in_lower_keyed agents _ (Hlower agent)).
  destruct (first_key_in (map fst agents) (str_lower agent)) as [s|] eqn:Hscan.
  - symmetry. apply agents_get_lower_keyed.
    apply first_key_in_occurs in Hscan.
    destruct (has_upper s) eqn:Hs; [|reflexivity].
    now rewrite (upper_never_occurs s _ Hs (Hlower agent)) in Hscan.
  - symmetry. now apply agents_get_lower_keyed.
Qed.

End MoreRulesFacts.

(** ** More on the session *)

Lemma ci_getitem_setitem_same (d : ci_dict) (name name' v : string) :
  PyStr.lower name' = PyStr.lower name ->
  ci_getitem (ci_setitem d name v) name' = Return v.
Proof.
  intros Heq. induction d as [|[k v0] rest IH]; simpl.
  - now rewrite Heq, String.eqb_refl.
  - destruct (String.eqb_spec (PyStr.lower k) (PyStr.lower name)) as [Hk|Hk]; simpl.
    + now rewrite Heq, String.eqb_refl.
    + rewrite Heq. destruct (String.eqb_spec (PyStr.lower k) (PyStr.lower name)); [contradiction|].
      exact IH.
Qed.




Section SessionFacts.

Context {World : Type}.
Variable requests_get : Session -> string -> World -> result Response * World.
Variable json_loads : string -> result json.
Variable default_headers : ci_dict.

(** X4. [SessionRaiseOn420.get] makes the one request of
    [requests.Session.get] and nothing more. A response it returns is the
    one that request returned, and never one with status 420 and the
    [warcprox-meta] header. An exception it raises is the one the request
    raised, or the one [json.loads] raised on the header's value, or a
    [ReachedLimit] with what [json.loads] returned and the response's text;
    the header lookup itself never fails. *)
Theorem session_get_outcomes (self : Session) (url : string) (w : World) :
  snd (SessionRaiseOn420_get requests_get json_loads self url w) =
    snd (requests_get self url w) /\
  (forall res,
     fst (SessionRaiseOn420_get requests_get json_loads self url w) = Return res ->
     fst (requests_get self url w) = Return res /\
     (status_code res =? 420)%Z && ci_contains (res_headers res) "warcprox-meta" = false) /\
  (forall e,
     fst (SessionRaiseOn420_get requests_get json_loads self url w) = Raise e ->
     fst (requests_get self url w) = Raise e \/
     exists res v,
       fst (requests_get self url w) = Return res /\
       status_code res = 420%Z /\
       ci_getitem (res_headers res) "warcprox-meta" = Return v /\
       (json_loads v = Raise e \/
        exists meta, json_loads v = Return meta /\ e = ReachedLimit [] meta (text res))).
Proof.
  unfold SessionRaiseOn420_get.
  destruct (requests_get self url w) as [[res|e0] w']; cbn [fst snd].
  2: { split; [reflexivity|]. split; [discriminate|]. intros e [= <-]. now left. }
  destruct ((status_code res =? 420)%Z && ci_contains (res_headers res) "warcprox-meta") eqn:Hlim.
  2: { split; [reflexivity|]. split; [|discriminate]. intros res' [= <-]. now split. }
  apply andb_true_iff in Hlim as [Hst Hin]. apply Z.eqb_eq in Hst.
  apply ci_contains_getitem in Hin as [v Hv]. rewrite Hv.
  destruct (json_loads v) as [meta|e1] eqn:Hjs; cbn [fst snd];
    (split; [reflexivity|]); (split; [discriminate|]);
    intros e [= <-]; right; exists res, v; (split; [reflexivity|]);
    (split; [exact Hst|]); (split; [exact Hv|]).
  - right. now exists meta.
  - now left.
Qed.

(** X5. When the site has a user agent, the session sends it as its
    [User-Agent] header whatever the library's default is and whatever
    [User-Agent] the site's extra headers give, in any spelling of the
    header's name. *)
Theorem session_sends_site_user_agent (site : Site) (proxy : option string) (ua name : string) :
  truthy (user_agent site) = Some ua ->
  PyStr.lower name = "user-agent" ->
  ci_getitem (headers (new_session default_headers site proxy)) name = Return ua.
Proof.
  intros Hua Hname. unfold new_session. cbn [headers]. rewrite Hua.
  apply ci_getitem_setitem_same. exact Hname.
Qed.




End SessionFacts.

(** ** More on the retry loop *)

(** What the handler raises, and from what. *)
Lemma handle_raises (e x : exn) :
  handle e = Raises x ->
  (exists args meta payload rest,
     x = ReachedLimit args meta payload /\ e = Exc ServerError (PyExc x :: rest)) \/
  (x = Exc BrozzlerProxyError [PyExc e] /\
   exists a0 rest, exn_args e = a0 :: rest /\ is_requests_ProxyError a0 = true) \/
  (x = Exc IndexError [PyText "tuple index out of range"] /\ exn_args e = []).
Proof.
  assert (handle_proxy_error e = Raises x ->
          (x = Exc BrozzlerProxyError [PyExc e] /\
           exists a0 rest, exn_args e = a0 :: rest /\ is_requests_ProxyError a0 = true) \/
          (x = Exc IndexError [PyText "tuple index out of range"] /\ exn_args e = [])) as Hpx.
  { unfold handle_proxy_error, args0. destruct (exn_args e) as [|a0 rest] eqn:Ha.
    - intros [= <-]. now right.
    - destruct (is_requests_ProxyError a0) eqn:Hp; [|discriminate].
      intros [= <-]. left. split; [reflexivity|]. now exists a0, rest. }
  unfold handle. destruct (is_ServerError e) eqn:Hse; [|intros H; right; now apply Hpx].
  destruct e as [args meta payload|cls args]; [discriminate|].
  destruct cls; try discriminate. unfold args0. cbn [exn_args].
  destruct args as [|a0 rest].
  - intros [= <-]. right. now right.
  - destruct a0 as [s|[args' meta payload|cls' args']];
      try (intros H; right; now apply Hpx).
    intros [= <-]. left. now exists args', meta, payload, rest.
Qed.

Section MoreRobotsFacts.

Context {World : Type}.
Variable default_headers : ci_dict.
Variable allowed : RobotsCache -> string -> string -> World -> result bool * World.

Local Abbreviation State := (@State World).
Local Abbreviation robots_cache := (_robots_cache default_headers).
Local Abbreviation call := (call_allowed default_headers allowed).
Local Abbreviation loop := (retry_loop default_headers allowed).
Local Abbreviation outcomes_of := (outcomes allowed).

Implicit Types (st : State) (site : Site) (proxy : option string) (rc : RobotsCache).

Lemma outcomes_S_first rc url agent k (w : World) :
  outcomes_of rc url agent (S k) w =
  (fst (allowed rc url agent w) :: fst (outcomes_of rc url agent k (snd (allowed rc url agent w))),
   snd (outcomes_of rc url agent k (snd (allowed rc url agent w)))).
Proof.
  simpl. destruct (allowed rc url agent w) as [r w1]. cbn [fst snd].
  now destruct (outcomes allowed rc url agent k w1).
Qed.

Lemma transient_verdict (r : result bool) : transient r = true <-> verdict r = None.
Proof.
  unfold transient, verdict. destruct r as [b|e]; [easy|]. now destruct (handle e).
Qed.

(** The whole run of the loop on a state that holds the site's cache: some
    [k <= tries] calls fail transiently, the next call decides. The loop
    ends with the verdict on that call, or with [False] when that call too
    sends the handler to the retry branch, which can only be the call that
    finds no tries left. *)
Lemma loop_summary site url proxy tries :
  forall st rc,
    _robots_caches st !! site_id site = Some rc ->
    exists k r_last ws,
      k <= tries /\
      fst (outcomes_of rc url (agent_of site) (S k) (world st)) !! k = Some r_last /\
      forallb transient (take k (fst (outcomes_of rc url (agent_of site) (S k) (world st)))) = true /\
      (verdict r_last = None -> k = tries) /\
      loop site url proxy tries st =
        (match verdict r_last with Some v => v | None => Return false end,
         {| _robots_caches := _robots_caches st; next_oid := next_oid st;
            world := snd (outcomes_of rc url (agent_of site) (S k) (world st));
            log := (log st ++ ws)%list;
            calls := (calls st ++ replicate (S k) (oid rc, url, agent_of site))%list |}) /\
      map tries_of ws =
        (map Some (countdown tries k) ++
         match verdict r_last with Some _ => [] | None => [None] end)%list.
Proof.
  induction tries as [|n IH]; intros st rc Hhit.
  - exists 0, (fst (allowed rc url (agent_of site) (world st))).
    pose proof (call_hit default_headers allowed site url proxy st rc Hhit) as Hcall.
    rewrite outcomes_S_first. cbn [fst snd outcomes take forallb lookup list_lookup].
    destruct (allowed rc url (agent_of site) (world st)) as [[b|e] w1]; cbn [fst snd] in *.
    + exists []. simpl. rewrite Hcall, app_nil_r. repeat split; auto.
    + unfold verdict. simpl. rewrite Hcall. destruct (handle e) as [x|].
      * exists []. rewrite app_nil_r. repeat split; auto.
      * exists [LogError url e]. repeat split; auto.
  - pose proof (call_hit default_headers allowed site url proxy st rc Hhit) as Hcall.
    destruct (allowed rc url (agent_of site) (world st)) as [[b|e] w1] eqn:Ea.
    + exists 0, (Return b), []. rewrite outcomes_S_first, Ea.
      cbn [fst snd outcomes take forallb lookup list_lookup] in *.
      simpl. rewrite Hcall, app_nil_r. repeat split; first [lia | discriminate | reflexivity].
    + cbn [fst snd] in Hcall. destruct (handle e) as [x|] eqn:Hh.
      * exists 0, (Raise e), []. rewrite outcomes_S_first, Ea.
        cbn [fst snd outcomes take forallb lookup list_lookup] in *.
        unfold verdict. rewrite Hh. simpl. rewrite Hcall, Hh, app_nil_r.
        repeat split; first [lia | discriminate | reflexivity].
      * match type of Hcall with _ = (_, ?s) => set (st1 := s) in * end.
        destruct (IH (log_emit (LogWarn (S n) url e) st1) rc Hhit)
          as (k & r_last & ws & Hle & Hlast & Hfail & Hend & Hloop & Hws).
        cbn [world log_emit st1] in Hlast, Hfail, Hloop.
        exists (S k), r_last, (LogWarn (S n) url e :: ws).
        rewrite (outcomes_S_first rc url (agent_of site) (S k)), Ea. cbn [fst snd].
        split; [lia|]. split; [exact Hlast|]. split.
        { cbn [take forallb]. rewrite Hfail. unfold transient. now rewrite Hh. }
        split; [intros Hv; now rewrite (Hend Hv)|]. split.
        { simpl. rewrite Hcall, Hh. fold st1.
          change (retry_loop default_headers allowed site url proxy n
                    (log_emit (LogWarn (S n) url e) st1) = 
                  (match verdict r_last with Some v => v | None => Return false end,
                   {| _robots_caches := _robots_caches st; next_oid := next_oid st;
                      world := snd (outcomes allowed rc url (agent_of site) (S k) w1);
                      log := (log st ++ LogWarn (S n) url e :: ws)%list;
                      calls := (calls st ++
                                (oid rc, url, agent_of site) ::
                                replicate (S k) (oid rc, url, agent_of site))%list |})).
          rewrite Hloop. cbn [_robots_caches next_oid log calls log_emit st1].
          now rewrite <- !app_assoc. }
        simpl. rewrite Nat.sub_0_r. now rewrite Hws.
Qed.

(** The same for a whole check, from any state. *)
Lemma check_summary site url proxy st :
  ignore_robots site = false ->
  exists k r_last ws,
    k <= 10 /\
    fst (outcomes_of (fst (robots_cache site proxy st)) url (agent_of site) (S k) (world st))
      !! k = Some r_last /\
    forallb transient
      (take k (fst (outcomes_of (fst (robots_cache site proxy st)) url (agent_of site)
                      (S k) (world st)))) = true /\
    (verdict r_last = None -> k = 10) /\
    is_permitted_by_robots default_headers allowed site url proxy st =
      (match verdict r_last with Some v => v | None => Return false end,
       {| _robots_caches := _robots_caches (snd (robots_cache site proxy st));
          next_oid := next_oid (snd (robots_cache site proxy st));
          world := snd (outcomes_of (fst (robots_cache site proxy st)) url (agent_of site)
                          (S k) (world st));
          log := (log st ++ ws)%list;
          calls := (calls st ++
                    replicate (S k) (oid (fst (robots_cache site proxy st)), url,
                                     agent_of site))%list |}) /\
    map tries_of ws =
      (map Some (countdown 10 k) ++
       match verdict r_last with Some _ => [] | None => [None] end)%list.
Proof.
  intros Hig. unfold is_permitted_by_robots. rewrite Hig, loop_resolved.
  pose proof (robots_cache_stores default_headers site proxy st) as H.
  destruct (robots_cache site proxy st) as [rc st1]. cbn [fst snd].
  destruct H as (Hhit & Hw & Hlog & Hcalls).
  destruct (loop_summary site url proxy 10 st1 rc Hhit)
    as (k & r_last & ws & Hle & Hlast & Hfail & Hend & Hloop & Hws).
  rewrite Hw, Hlog, Hcalls in *. now exists k, r_last, ws.
Qed.

(** The outcome that decides a run of [k + 1] calls is that of the call
    made after the first [k]. *)
Lemma outcomes_last rc url agent k (w : World) (r : result bool) :
  fst (outcomes_of rc url agent (S k) w) !! k = Some r ->
  allowed rc url agent (snd (outcomes_of rc url agent k w)) =
    (r, snd (outcomes_of rc url agent (S k) w)) /\
  fst (outcomes_of rc url agent (S k) w) =
    (take k (fst (outcomes_of rc url agent (S k) w)) ++ [r])%list.
Proof.
  rewrite outcomes_S_last. cbn [fst snd].
  pose proof (outcomes_length allowed rc url agent k w) as Hlen.
  rewrite lookup_app_r, Hlen, Nat.sub_diag by lia. cbn. intros [= <-].
  rewrite take_app_length' by (symmetry; exact Hlen).
  split; [|reflexivity].
  now destruct (allowed rc url agent (snd (outcomes allowed rc url agent k w))).
Qed.

(** X8. A check of a site that does not ignore robots changes the dict and
    the set of objects built exactly as one call of [_robots_cache] for
    that site and proxy does: it builds the site's cache when the dict does
    not hold it, and builds nothing on the retries. *)
Theorem check_registry_effect site url proxy st :
  ignore_robots site = false ->
  _robots_caches (snd (is_permitted_by_robots default_headers allowed site url proxy st)) =
    _robots_caches (snd (_robots_cache default_headers site proxy st)) /\
  next_oid (snd (is_permitted_by_robots default_headers allowed site url proxy st)) =
    next_oid (snd (_robots_cache default_headers site proxy st)).
Proof.
  intros Hig.
  destruct (check_summary site url proxy st Hig) as (k & r & ws & _ & _ & _ & _ & -> & _).
  split; reflexivity.
Qed.

(** X9. Whatever the collaborator does, a check of a site that does not
    ignore robots makes at least 1 and at most 11 calls of [allowed]. What
    it logs is a beginning of the series: warnings with 10, 9, ..., 1 tries
    left, then one error record. It logs one record fewer than it makes
    calls, except when it gives up: then it has made 11 calls, logged all 11
    records and returns [False]. *)
Theorem check_attempts_bounded site url proxy st :
  ignore_robots site = false ->
  1 <= attempts st (snd (is_permitted_by_robots default_headers allowed site url proxy st)) <= 11 /\
  (exists rest,
     [Some 10; Some 9; Some 8; Some 7; Some 6; Some 5; Some 4; Some 3; Some 2; Some 1; None] =
     (map tries_of
        (logged st (snd (is_permitted_by_robots default_headers allowed site url proxy st)))
      ++ rest)%list) /\
  (List.length
     (logged st (snd (is_permitted_by_robots default_headers allowed site url proxy st))) =
   attempts st (snd (is_permitted_by_robots default_headers allowed site url proxy st)) - 1 \/
   (List.length
      (logged st (snd (is_permitted_by_robots default_headers allowed site url proxy st))) = 11 /\
    attempts st (snd (is_permitted_by_robots default_headers allowed site url proxy st)) = 11 /\
    fst (is_permitted_by_robots default_headers allowed site url proxy st) = Return false)).
Proof.
  intros Hig.
  destruct (check_summary site url proxy st Hig)
    as (k & r & ws & Hle & _ & _ & Hend & -> & Hws).
  cbn [fst snd]. unfold attempts. cbn [calls].
  rewrite (logged_app st _ ws) by reflexivity.
  rewrite length_app, length_replicate.
  assert (List.length ws = List.length (map tries_of ws)) as Hlen by now rewrite length_map.
  rewrite Hws, length_app, length_map in Hlen. rewrite Hws.
  assert (List.length (countdown 10 k) = k) as Hck.
  { clear. generalize 10. induction k as [|k IH]; intros from; simpl; [reflexivity|].
    now rewrite IH. }
  rewrite Hck in Hlen.
  split; [lia|]. split.
  - destruct (verdict r).
    + do 11 (destruct k as [|k]; [eexists; reflexivity|]). lia.
    + rewrite (Hend eq_refl). now exists [].
  - destruct (verdict r); simpl in Hlen.
    + left. lia.
    + right. rewrite (Hend eq_refl) in *. repeat split; lia.
Qed.

(** X10. A check of a site that does not ignore robots returns a value only
    in two ways: it is the value the collaborator returned on the last call
    made, after at most 10 calls that failed; or it is [False], after 11
    calls that all sent the handler to the retry branch. In particular
    [True] always comes from the collaborator. *)
Theorem check_returns_answer_or_gives_up site url proxy st b :
  ignore_robots site = false ->
  fst (is_permitted_by_robots default_headers allowed site url proxy st) = Return b ->
  (exists k,
     k <= 10 /\
     allowed (fst (_robots_cache default_headers site proxy st)) url (agent_of site)
       (snd (outcomes allowed (fst (_robots_cache default_headers site proxy st)) url
               (agent_of site) k (world st))) =
     (Return b,
      world (snd (is_permitted_by_robots default_headers allowed site url proxy st)))) \/
  (b = false /\
   attempts st (snd (is_permitted_by_robots default_headers allowed site url proxy st)) = 11 /\
   forallb transient
     (fst (outcomes allowed (fst (_robots_cache default_headers site proxy st)) url
             (agent_of site) 11 (world st))) = true).
Proof.
  intros Hig.
  destruct (check_summary site url proxy st Hig)
    as (k & r & ws & Hle & Hlast & Hfail & Hend & -> & Hws).
  cbn [fst snd world]. destruct (outcomes_last _ _ _ _ _ _ Hlast) as [Hcall Hrs].
  destruct (verdict r) as [v|] eqn:Hv.
  - intros ->. left. exists k. split; [exact Hle|].
    unfold verdict in Hv. destruct r as [b'|e]; [now injection Hv as -> |].
    destruct (handle e); discriminate.
  - intros [= <-]. right. rewrite (Hend eq_refl) in *. split; [reflexivity|]. split.
    + unfold attempts. cbn [calls]. rewrite length_app, length_replicate. lia.
    + rewrite Hrs, forallb_app, Hfail. cbn. rewrite (proj2 (transient_verdict r) Hv). reflexivity.
Qed.

(** X11. What a check can raise, and from what. The exception comes from
    the handler's treatment of the exception [e] that the collaborator
    raised on the last call made: it is a [ReachedLimit] that was the first
    argument of a reppy [ServerError]; or a [brozzler.ProxyError] around
    [e], whose first argument is a requests [ProxyError]; or the
    [IndexError] of [e.args[0]], and then [e.args] is empty. *)
Theorem check_raises_only_from_handler site url proxy st x :
  ignore_robots site = false ->
  fst (is_permitted_by_robots default_headers allowed site url proxy st) = Raise x ->
  exists k e,
    k <= 10 /\
    fst (allowed (fst (_robots_cache default_headers site proxy st)) url (agent_of site)
           (snd (outcomes allowed (fst (_robots_cache default_headers site proxy st)) url
                   (agent_of site) k (world st)))) = Raise e /\
    ((exists args meta payload rest,
        x = ReachedLimit args meta payload /\ e = Exc ServerError (PyExc x :: rest)) \/
     (x = Exc BrozzlerProxyError [PyExc e] /\
      exists a0 rest, exn_args e = a0 :: rest /\ is_requests_ProxyError a0 = true) \/
     (x = Exc IndexError [PyText "tuple index out of range"] /\ exn_args e = [])).
Proof.
  intros Hig.
  destruct (check_summary site url proxy st Hig)
    as (k & r & ws & Hle & Hlast & _ & _ & -> & _).
  cbn [fst snd]. destruct (outcomes_last _ _ _ _ _ _ Hlast) as [Hcall _].
  unfold verdict. destruct r as [b|e]; [discriminate|].
  destruct (handle e) as [x'|] eqn:Hh; [|discriminate].
  intros [= ->]. exists k, e. split; [exact Hle|]. split; [now rewrite Hcall|].
  now apply handle_raises.
Qed.

(** X12. Every call a check makes is a call on the site's own cache, with
    the url given and with the site's user agent, or [brozzler] when the
    site has none. *)
Theorem check_calls_site_cache site url proxy st :
  ignore_robots site = false ->
  calls (snd (is_permitted_by_robots default_headers allowed site url proxy st)) =
  (calls st ++
   replicate (attempts st (snd (is_permitted_by_robots default_headers allowed site url proxy st)))
     (oid (fst (_robots_cache default_headers site proxy st)), url, agent_of site))%list /\
  _robots_caches (snd (is_permitted_by_robots default_headers allowed site url proxy st))
    !! site_id site = Some (fst (_robots_cache default_headers site proxy st)) /\
  (truthy (user_agent site) = None -> agent_of site = "brozzler").
Proof.
  intros Hig.
  destruct (check_summary site url proxy st Hig) as (k & r & ws & _ & _ & _ & _ & -> & _).
  cbn [fst snd calls _robots_caches]. unfold attempts. cbn [calls].
  rewrite length_app, length_replicate.
  replace (List.length (calls st) + S k - List.length (calls st)) with (S k) by lia.
  split; [reflexivity|]. split.
  - pose proof (robots_cache_stores default_headers site proxy st) as H.
    destruct (robots_cache site proxy st) as [rc st1]. now destruct H.
  - intros Hua. unfold agent_of. now rewrite Hua.
Qed.

Lemma loop_same_on_hit site site' url proxy proxy' tries :
  site_id site' = site_id site ->
  agent_of site' = agent_of site ->
  forall st rc,
    _robots_caches st !! site_id site = Some rc ->
    loop site url proxy tries st = loop site' url proxy' tries st.
Proof.
  intros Hid Hagent. induction tries as [|n IH]; intros st rc Hhit; simpl;
    rewrite (call_hit default_headers allowed site url proxy st rc Hhit),
            (call_hit default_headers allowed site' url proxy' st rc) by (now rewrite Hid);
    rewrite Hagent;
    destruct (allowed rc url (agent_of site) (world st)) as [[b|e] w1]; cbn [fst snd];
    try reflexivity; destruct (handle e); try reflexivity.
  apply (IH _ rc). exact Hhit.
Qed.

(** X13. Once the dict holds a cache for a site id, a check reads the site
    only for its id, its ignore-robots flag and its user agent: the proxy
    and the site's extra headers given to the check play no part. *)
Theorem check_uses_stored_cache site site' url proxy proxy' st rc :
  _robots_caches st !! site_id site = Some rc ->
  site_id site' = site_id site ->
  ignore_robots site' = ignore_robots site ->
  agent_of site' = agent_of site ->
  is_permitted_by_robots default_headers allowed site' url proxy' st =
  is_permitted_by_robots default_headers allowed site url proxy st.
Proof.
  intros Hhit Hid Hig Hagent. unfold is_permitted_by_robots. rewrite Hig.
  destruct (ignore_robots site); [reflexivity|].
  symmetry. now apply (loop_same_on_hit site site' url proxy proxy' 10 Hid Hagent st rc).
Qed.

(** ** More on [_robots_cache] *)

Lemma objects_distinct_fields st st' :
  _robots_caches st' = _robots_caches st ->
  next_oid st' = next_oid st ->
  objects_distinct st -> objects_distinct st'.
Proof. unfold objects_distinct. intros -> ->. exact id. Qed.

Lemma robots_cache_distinct site proxy st :
  objects_distinct st -> objects_distinct (snd (robots_cache site proxy st)).
Proof.
  intros [Hold Hdiff]. unfold _robots_cache.
  destruct (_robots_caches st !! site_id site) as [rc|] eqn:Hhit; cbn [snd]; [now split|].
  split; cbn [_robots_caches next_oid].
  - intros key rc. destruct (decide (site_id site = key)) as [<-|Hne].
    + rewrite lookup_insert_eq. intros [= <-]. cbn. lia.
    + rewrite lookup_insert_ne by exact Hne. intros H. specialize (Hold _ _ H). lia.
  - intros key1 key2 rc1 rc2.
    destruct (decide (site_id site = key1)) as [<-|Hne1];
      destruct (decide (site_id site = key2)) as [<-|Hne2];
      rewrite ?lookup_insert_eq, ?lookup_insert_ne by assumption; try reflexivity.
    + intros [= <-] H2 Heq. cbn in Heq. specialize (Hold _ _ H2). lia.
    + intros H1 [= <-] Heq. cbn in Heq. specialize (Hold _ _ H1). lia.
    + apply Hdiff.
Qed.

(** X14. No two site ids ever hold the same cache object, and every cache
    in the dict is an object built earlier: when this is so before a series
    of calls of [_robots_cache] and [is_permitted_by_robots], it is so
    after it. So a site's checks never run through the session of another
    site. *)
Theorem run_ops_keeps_objects_distinct ops st :
  objects_distinct st ->
  objects_distinct (run_ops default_headers allowed ops st).
Proof.
  revert st. induction ops as [|[site proxy|site url proxy] rest IH]; intros st H; simpl.
  - exact H.
  - apply IH. now apply robots_cache_distinct.
  - apply IH. destruct (ignore_robots site) eqn:Hig.
    + unfold is_permitted_by_robots. now rewrite Hig.
    + destruct (check_summary site url proxy st Hig) as (k & r & ws & _ & _ & _ & _ & -> & _).
      cbn [snd]. apply (objects_distinct_fields (snd (robots_cache site proxy st)));
        [reflexivity | reflexivity | now apply robots_cache_distinct].
Qed.

(** One statement of one thread: what it keeps. *)
Lemma thread_step_keeps (t u : thread) st :
  lookup_safe t st -> lookup_safe u st ->
  lookup_safe (fst (thread_step default_headers t st)) (snd (thread_step default_headers t st)) /\
  lookup_safe u (snd (thread_step default_headers t st)) /\
  th_site (fst (thread_step default_headers t st)) = th_site t /\
  next_oid (snd (thread_step default_headers t st)) +
    may_build (fst (thread_step default_headers t st)) <= next_oid st + may_build t /\
  next_oid st <= next_oid (snd (thread_step default_headers t st)) /\
  world (snd (thread_step default_headers t st)) = world st /\
  log (snd (thread_step default_headers t st)) = log st /\
  calls (snd (thread_step default_headers t st)) = calls st /\
  (forall key, key <> site_id (th_site t) ->
     _robots_caches (snd (thread_step default_headers t st)) !! key = _robots_caches st !! key).
Proof.
  intros Ht Hu. unfold thread_step, lookup_safe, may_build, at_pc in *.
  destruct t as [site proxy p]. cbn [th_pc th_site th_proxy] in *.
  destruct p as [| |rc| |rc|e]; cbn [fst snd th_pc th_site next_oid world log calls _robots_caches].
  - destruct (_robots_caches st !! site_id site) as [rc|] eqn:Hhit;
      cbn [fst snd th_pc th_site]; rewrite ?Hhit; repeat split; eauto; lia.
  - repeat split; auto; lia.
  - rewrite lookup_insert_eq. repeat split; eauto; try lia.
    + destruct (th_pc u); try exact Hu.
      destruct (decide (site_id site = site_id (th_site u))) as [->|Hne].
      * rewrite lookup_insert_eq. eauto.
      * now rewrite lookup_insert_ne.
    + intros key Hne. now rewrite lookup_insert_ne.
  - destruct Ht as [rc Hhit]. rewrite Hhit. cbn [fst snd th_pc th_site].
    repeat split; auto; lia.
  - repeat split; auto; lia.
  - contradiction.
Qed.

Lemma run_two_keeps schedule :
  forall (t1 t2 : thread) st,
    lookup_safe t1 st -> lookup_safe t2 st ->
    lookup_safe (fst (fst (run_two default_headers schedule t1 t2 st)))
      (snd (run_two default_headers schedule t1 t2 st)) /\
    lookup_safe (snd (fst (run_two default_headers schedule t1 t2 st)))
      (snd (run_two default_headers schedule t1 t2 st)) /\
    next_oid (snd (run_two default_headers schedule t1 t2 st)) +
      may_build (fst (fst (run_two default_headers schedule t1 t2 st))) +
      may_build (snd (fst (run_two default_headers schedule t1 t2 st))) <=
      next_oid st + may_build t1 + may_build t2 /\
    next_oid st <= next_oid (snd (run_two default_headers schedule t1 t2 st)) /\
    world (snd (run_two default_headers schedule t1 t2 st)) = world st /\
    log (snd (run_two default_headers schedule t1 t2 st)) = log st /\
    calls (snd (run_two default_headers schedule t1 t2 st)) = calls st /\
    (forall key, key <> site_id (th_site t1) -> key <> site_id (th_site t2) ->
       _robots_caches (snd (run_two default_headers schedule t1 t2 st)) !! key =
       _robots_caches st !! key).
Proof.
  induction schedule as [|[] rest IH]; intros t1 t2 st H1 H2.
  - cbn [run_two fst snd]. repeat split; auto; lia.
  - cbn [run_two].
    destruct (thread_step_keeps t1 t2 st H1 H2) as (S1 & S2 & Hs & Hb & Hn & Hw & Hl & Hc & Hk).
    destruct (thread_step default_headers t1 st) as [t1' st'] eqn:E. cbn [fst snd] in *.
    destruct (IH t1' t2 st' S1 S2) as (R1 & R2 & Rb & Rn & Rw & Rl & Rc & Rk).
    repeat split; try assumption; try congruence; try lia.
    intros key K1 K2. rewrite Rk; [now apply Hk | now rewrite Hs | exact K2].
  - cbn [run_two].
    destruct (thread_step_keeps t2 t1 st H2 H1) as (S2 & S1 & Hs & Hb & Hn & Hw & Hl & Hc & Hk).
    destruct (thread_step default_headers t2 st) as [t2' st'] eqn:E. cbn [fst snd] in *.
    destruct (IH t1 t2' st' S1 S2) as (R1 & R2 & Rb & Rn & Rw & Rl & Rc & Rk).
    repeat split; try assumption; try congruence; try lia.
    intros key K1 K2. rewrite Rk; [now apply Hk | exact K1 | now rewrite Hs].
Qed.

(** X15. Two threads in [_robots_cache], under every schedule and for any
    two sites: neither thread's final lookup raises [KeyError]; at most two
    caches are built; the collaborator is not called and nothing is logged;
    and the dict's entries for other site ids are left as they were. *)
Theorem two_threads_any_schedule schedule site1 proxy1 site2 proxy2 st :
  (forall e, th_pc (fst (fst (run_two default_headers schedule
                                (enter site1 proxy1) (enter site2 proxy2) st))) <> Failed e) /\
  (forall e, th_pc (snd (fst (run_two default_headers schedule
                                (enter site1 proxy1) (enter site2 proxy2) st))) <> Failed e) /\
  next_oid st <=
    next_oid (snd (run_two default_headers schedule
                     (enter site1 proxy1) (enter site2 proxy2) st)) <= next_oid st + 2 /\
  world (snd (run_two default_headers schedule
                (enter site1 proxy1) (enter site2 proxy2) st)) = world st /\
  log (snd (run_two default_headers schedule
              (enter site1 proxy1) (enter site2 proxy2) st)) = log st /\
  calls (snd (run_two default_headers schedule
                (enter site1 proxy1) (enter site2 proxy2) st)) = calls st /\
  (forall key, key <> site_id site1 -> key <> site_id site2 ->
     _robots_caches (snd (run_two default_headers schedule
                            (enter site1 proxy1) (enter site2 proxy2) st)) !! key =
     _robots_caches st !! key).
Proof.
  destruct (run_two_keeps schedule (enter site1 proxy1) (enter site2 proxy2) st I I)
    as (R1 & R2 & Rb & Rn & Rw & Rl & Rc & Rk).
  cbn [may_build enter th_pc] in Rb.
  split; [|split; [|repeat split; try assumption; lia]].
  - intros e He. unfold lookup_safe in R1. now rewrite He in R1.
  - intros e He. unfold lookup_safe in R2. now rewrite He in R2.
Qed.

End MoreRobotsFacts.

(** ** The further properties on concrete inputs *)

Lemma getitem_first_listed_key_wins_witness :
  _reppy_rules_getitem PyStr.lower [("bot", 1); ("example", 2); ("*", 0)] "ExampleBot/1.0" =
    Some 1 /\
  _reppy_rules_getitem PyStr.lower [("example", 2); ("bot", 1); ("*", 0)] "ExampleBot/1.0" =
    Some 2.
Proof.
  apply (getitem_first_listed_key_wins PyStr.lower [("*", 0)] "ExampleBot/1.0"
           "bot" 1 "example" 2);
    apply contains_spec; reflexivity.
Defined.

Lemma getitem_ignores_capital_keys_witness :
  _reppy_rules_getitem PyStr.lower [("Bot", 1); ("example", 2); ("*", 0)] "ExampleBot/1.0" =
  _reppy_rules_getitem PyStr.lower [("example", 2); ("*", 0)] "ExampleBot/1.0".
Proof.
  apply (getitem_ignores_capital_keys PyStr.lower [("Bot", 1); ("example", 2); ("*", 0)]
           "ExampleBot/1.0" lower_has_no_upper).
Defined.

Lemma session_sends_site_user_agent_witness :
  ci_getitem (headers (new_session Demo.default_headers Demo.site3 None)) "USER-AGENT" =
  Return "examplebot/1.0".
Proof.
  apply (session_sends_site_user_agent Demo.default_headers Demo.site3 None); reflexivity.
Defined.



Lemma check_registry_effect_witness :
  next_oid (snd (permitted Demo.site1 Demo.url1 None (Demo.fresh Demo.flaky))) =
  next_oid (snd (_robots_cache Demo.default_headers Demo.site1 None (Demo.fresh Demo.flaky))).
Proof.
  apply (check_registry_effect Demo.default_headers Demo.allowed Demo.site1 Demo.url1 None
           (Demo.fresh Demo.flaky) eq_refl).
Defined.

Lemma check_attempts_bounded_witness :
  1 <= attempts (Demo.fresh Demo.flaky)
         (snd (permitted Demo.site1 Demo.url1 None (Demo.fresh Demo.flaky))) <= 11.
Proof.
  apply (check_attempts_bounded Demo.default_headers Demo.allowed Demo.site1 Demo.url1 None
           (Demo.fresh Demo.flaky) eq_refl).
Defined.

Lemma check_returns_answer_or_gives_up_witness :
  (exists k,
     k <= 10 /\
     Demo.allowed (fst (_robots_cache Demo.default_headers Demo.site1 None (Demo.fresh Demo.flaky)))
       Demo.url1 (agent_of Demo.site1)
       (snd (outcomes Demo.allowed
               (fst (_robots_cache Demo.default_headers Demo.site1 None (Demo.fresh Demo.flaky)))
               Demo.url1 (agent_of Demo.site1) k (world (Demo.fresh Demo.flaky)))) =
     (Return true,
      world (snd (permitted Demo.site1 Demo.url1 None (Demo.fresh Demo.flaky))))) \/
  (true = false /\
   attempts (Demo.fresh Demo.flaky)
     (snd (permitted Demo.site1 Demo.url1 None (Demo.fresh Demo.flaky))) = 11 /\
   forallb transient
     (fst (outcomes Demo.allowed
             (fst (_robots_cache Demo.default_headers Demo.site1 None (Demo.fresh Demo.flaky)))
             Demo.url1 (agent_of Demo.site1) 11 (world (Demo.fresh Demo.flaky)))) = true).
Proof.
  apply (check_returns_answer_or_gives_up Demo.default_headers Demo.allowed Demo.site1
           Demo.url1 None (Demo.fresh Demo.flaky) true); reflexivity.
Defined.

Lemma check_raises_only_from_handler_witness :
  exists k e,
    k <= 10 /\
    fst (Demo.allowed
           (fst (_robots_cache Demo.default_headers Demo.site1 None
                   (Demo.fresh (Demo.once (Raise Demo.proxy_down)))))
           Demo.url1 (agent_of Demo.site1)
           (snd (outcomes Demo.allowed
                   (fst (_robots_cache Demo.default_headers Demo.site1 None
                           (Demo.fresh (Demo.once (Raise Demo.proxy_down)))))
                   Demo.url1 (agent_of Demo.site1) k
                   (world (Demo.fresh (Demo.once (Raise Demo.proxy_down))))))) = Raise e /\
    ((exists args meta payload rest,
        Exc BrozzlerProxyError [PyExc Demo.proxy_down] = ReachedLimit args meta payload /\
        e = Exc ServerError (PyExc (Exc BrozzlerProxyError [PyExc Demo.proxy_down]) :: rest)) \/
     (Exc BrozzlerProxyError [PyExc Demo.proxy_down] = Exc BrozzlerProxyError [PyExc e] /\
      exists a0 rest, exn_args e = a0 :: rest /\ is_requests_ProxyError a0 = true) \/
     (Exc BrozzlerProxyError [PyExc Demo.proxy_down] =
        Exc IndexError [PyText "tuple index out of range"] /\ exn_args e = [])).
Proof.
  apply (check_raises_only_from_handler Demo.default_headers Demo.allowed Demo.site1
           Demo.url1 None (Demo.fresh (Demo.once (Raise Demo.proxy_down)))); reflexivity.
Defined.

Lemma check_calls_site_cache_witness :
  calls (snd (permitted Demo.site1 Demo.url1 None (Demo.fresh Demo.flaky))) =
  replicate 10 (0, Demo.url1, "examplebot/1.0").
Proof.
  destruct (check_calls_site_cache Demo.default_headers Demo.allowed Demo.site1 Demo.url1
              None (Demo.fresh Demo.flaky) eq_refl) as [H _].
  rewrite H. reflexivity.
Defined.

Lemma check_uses_stored_cache_witness :
  permitted Demo.site3 Demo.url1 (Some "localhost:8000")
    (snd (_robots_cache Demo.default_headers
            {| site_id := "site-3"; ignore_robots := false;
               user_agent := Some "examplebot/1.0"; extra_headers := [] |}
            None (Demo.fresh Demo.flaky))) =
  permitted {| site_id := "site-3"; ignore_robots := false;
               user_agent := Some "examplebot/1.0"; extra_headers := [] |}
    Demo.url1 None
    (snd (_robots_cache Demo.default_headers
            {| site_id := "site-3"; ignore_robots := false;
               user_agent := Some "examplebot/1.0"; extra_headers := [] |}
            None (Demo.fresh Demo.flaky))).
Proof.
  apply (check_uses_stored_cache Demo.default_headers Demo.allowed _ Demo.site3 Demo.url1 None
           (Some "localhost:8000") _
           {| oid := 0;
              session := new_session Demo.default_headers
                           {| site_id := "site-3"; ignore_robots := false;
                              user_agent := Some "examplebot/1.0"; extra_headers := [] |}
                           None |});
    reflexivity.
Defined.

Lemma run_ops_keeps_objects_distinct_witness :
  objects_distinct
    (run_ops Demo.default_headers Demo.allowed
       [Resolve Demo.site1 None; Permitted Demo.site3 Demo.url1 None;
        Resolve Demo.site1_again (Some "localhost:8000")]
       (Demo.fresh Demo.flaky)).
Proof.
  apply run_ops_keeps_objects_distinct.
  split; cbn [Demo.fresh _robots_caches]; intros *; rewrite lookup_empty; discriminate.
Defined.
